(** * PanMatrix: a RAID engine over remote storage drivers

    A shallow embedding of
      - [src/raid/engine.go]              (module [Raid]),
      - [src/scheduler/raid_scheduler.go] (module [Scheduler]),
      - [src/metaddata/manager.go]        (module [Metadata]),
    followed by the properties of the specification, stated and settled on
    the embedding (modules [RaidSpec], [SchedulerSpec], [MetadataSpec]).

    Conventions of the embedding.
    - A Go [[]byte] is a [list Z] of values in [0, 256); [^] is [Z.lxor].
    - Loop counters, lengths and slice indices are [nat]: every one of them
      is bounded by the length of a slice held in memory, far below the
      2^63 at which Go's [int] would wrap.
    - A Go [map] is a [gmap].  The order in which [range] visits a map is
      left unspecified by Go and changes from one [range] statement to the
      next, so every function that ranges over a map takes the order of
      that traversal as an argument (a list of the keys).
    - The goroutines of one fan-out are run in index order.  The number of
      errors sent to the error channel does not depend on the schedule, and
      neither does what the drivers hold afterwards as long as no two
      goroutines upload to the same storage id of the same driver.
    - The context handed to the drivers is not cancelled.
    - A run-time panic (division by zero, index out of range, a method
      call on a nil driver) is the outcome [Panic]. *)

From Stdlib Require Import ZArith List Floats Uint63 Lia.
From stdpp Require Import base option list gmap strings pretty sorting.

Set Warnings "-inexact-float,-clear-no-such-hyp".

Local Open Scope nat_scope.

(** ** Bytes and slices *)

Abbreviation bytes := (list Z).

(** [data[lo:hi]] for [lo <= hi <= len(data)]. *)
Definition slice {A} (data : list A) (lo hi : nat) : list A :=
  take (hi - lo) (drop lo data).

(** [int(math.Ceil(float64(a) / float64(b)))] for [b > 0] and [a < 2^53]:
    both conversions are exact there, and the rounded quotient is an integer
    only when the exact one is. *)
Definition ceilDiv (a b : nat) : nat := (a + b - 1) / b.

(** ** Outcomes of a call *)

Inductive outcome (E A : Type) : Type :=
| Done (a : A)         (* returned a value and a nil error *)
| Fail (e : E)         (* returned a non-nil error *)
| Panic.               (* did not return: run-time panic *)
Arguments Done {E A} a.
Arguments Fail {E A} e.
Arguments Panic {E A}.

(** ** The driver contract *)

Module Drivers.

(** Modelled from the spec: package [drivers] (the [StorageDriver] interface
    and its adapters) is not among the sources.  Section 6 gives the
    contract: [UploadChunk] stores the bytes under the storage id,
    overwriting; [DownloadChunk] returns exactly the bytes previously
    uploaded, and an error if absent.  As in the spec's test scenarios a
    driver keeps its blobs in an in-memory map and failures are injectable:
    [putFails id] makes the upload of [id] fail, [getFails id] its download. *)
Record StorageDriver : Type := mkDriver {
  blobs : gmap string bytes;
  putFails : string -> bool;
  getFails : string -> bool;
}.

Definition UploadChunk (d : StorageDriver) (data : bytes) (storageID : string)
  : option StorageDriver :=
  if putFails d storageID then None
  else Some (mkDriver (<[storageID := data]> (blobs d)) (putFails d) (getFails d)).

Definition DownloadChunk (d : StorageDriver) (storageID : string) : option bytes :=
  if getFails d storageID then None else blobs d !! storageID.

(** A fresh driver on which every operation succeeds. *)
Definition healthy : StorageDriver := mkDriver ∅ (fun _ => false) (fun _ => false).

(** A driver that rejects every upload. *)
Definition rejecting : StorageDriver := mkDriver ∅ (fun _ => true) (fun _ => false).

End Drivers.

(** ** src/raid/engine.go *)

Module Raid.
Import Drivers.

(** [type RAIDLevel int] with its four constants. *)
Definition RAIDLevel := Z.
Definition RAID0 : RAIDLevel := 0%Z.
Definition RAID1 : RAIDLevel := 1%Z.
Definition RAID5 : RAIDLevel := 5%Z.
Definition RAID10 : RAIDLevel := 10%Z.

(** The error values of the package, one constructor per message. *)
Inductive error : Type :=
| ErrRAID0Drivers              (* RAID0 needs at least 2 drivers *)
| ErrRAID1Drivers              (* RAID1 needs at least 2 drivers *)
| ErrRAID5Drivers              (* RAID5 needs at least 3 drivers *)
| ErrRAID10Drivers             (* RAID10 needs at least 4, an even number *)
| ErrUnsupportedLevel
| ErrDriverWrite (name : string)   (* writeRAID0Stripe: driver %s failed *)
| ErrAllDriversFailed              (* writeRAID1Stripe *)
| ErrRAID5WriteFailures            (* writeRAID5Stripe: several drivers failed *)
| ErrRAID10WriteFailures           (* writeRAID10Stripe: too many pairs failed *)
| ErrStripRead                     (* readRAID0Stripe *)
| ErrAllMirrorsLost                (* readRAID1Stripe, readRAID10Stripe *)
| ErrMultipleLost                  (* readRAID5Stripe: several blocks lost *)
| ErrRecoveryNotImplemented        (* recoverRAID5Stripe *)
| ErrWriteStripe (level : RAIDLevel) (cause : error)   (* WriteFile *)
| ErrReadStripe (stripeIndex : nat) (cause : error).   (* ReadFile *)

(** [RAIDController]; the unused [parityRotation] and the lock are left out.
    [drivers] holds the current state of every driver object.  [stripeSize]
    is the configured chunk size, a positive number of bytes. *)
Record RAIDController : Type := mkController {
  level : RAIDLevel;
  drivers : gmap string StorageDriver;
  stripeSize : nat;
  stripeWidth : nat;
}.

Definition withDrivers (rc : RAIDController) (ds : gmap string StorageDriver)
  : RAIDController :=
  mkController (level rc) ds (stripeSize rc) (stripeWidth rc).

(** [names] is an order in which one [range] may visit the keys of [m]. *)
Definition rangeOf {A} (m : gmap string A) (names : list string) : Prop :=
  NoDup names ∧ list_to_set names = dom m.

Global Instance rangeOf_dec {A} (m : gmap string A) (names : list string)
  : Decision (rangeOf m names).
Proof. unfold rangeOf. apply _. Defined.

Definition NewRAIDController (lvl : RAIDLevel) (ds : gmap string StorageDriver)
    (stripeSz : nat) : outcome error RAIDController :=
  let driverCount := size ds in
  let ok := Done (mkController lvl ds stripeSz driverCount) in
  match lvl with
  | 0%Z => if driverCount <? 2 then Fail ErrRAID0Drivers else ok
  | 1%Z => if driverCount <? 2 then Fail ErrRAID1Drivers else ok
  | 5%Z => if driverCount <? 3 then Fail ErrRAID5Drivers else ok
  | 10%Z => if (driverCount <? 4) || negb (driverCount mod 2 =? 0)
            then Fail ErrRAID10Drivers else ok
  | _ => Fail ErrUnsupportedLevel
  end.

(** *** Storage identifiers ([fmt.Sprintf]) *)

Inductive stripType : Type := DataStrip | ParityStrip.

Definition stripTypeName (t : stripType) : string :=
  match t with DataStrip => "data" | ParityStrip => "parity" end.

(** ["%s_s%d_st%d"] *)
Definition raid0ID (fileID : string) (stripeIndex stripIndex : nat) : string :=
  fileID +:+ "_s" +:+ pretty stripeIndex +:+ "_st" +:+ pretty stripIndex.

(** ["%s_s%d_%s"] *)
Definition raid1ID (fileID : string) (stripeIndex : nat) (name : string) : string :=
  fileID +:+ "_s" +:+ pretty stripeIndex +:+ "_" +:+ name.

(** ["%s_s%d_%s_%s"] *)
Definition raid5ID (fileID : string) (stripeIndex : nat) (t : stripType)
    (name : string) : string :=
  fileID +:+ "_s" +:+ pretty stripeIndex +:+ "_" +:+ stripTypeName t +:+ "_" +:+ name.

(** ["%s_s%d_pair%d_%s"] *)
Definition raid10ID (fileID : string) (stripeIndex pairIndex : nat)
    (name : string) : string :=
  fileID +:+ "_s" +:+ pretty stripeIndex +:+ "_pair" +:+ pretty pairIndex
         +:+ "_" +:+ name.

(** ["file_%s_%d"] of the name and [time.Now().UnixNano()]. *)
Definition generateFileID (fileName : string) (nowNano : Z) : string :=
  "file_" +:+ fileName +:+ "_" +:+ pretty nowNano.

(** *** Driver selection *)

(** [driverNames[totalIndex % len(driverNames)]]; [driverNames] is what the
    function's own [range rc.drivers] collected.  No drivers: the modulus
    panics. *)
Definition selectDriverForStrip (rc : RAIDController) (driverNames : list string)
    (stripeIndex stripIndex : nat) : option string :=
  let totalIndex := stripeIndex * stripeWidth rc + stripIndex in
  match length driverNames with
  | 0 => None
  | n => driverNames !! (totalIndex mod n)
  end.

Definition selectDriverByIndex (rc : RAIDController) (driverNames : list string)
    (index : nat) : option string :=
  if length driverNames <=? index then
    match length driverNames with
    | 0 => None
    | n => driverNames !! (index mod n)
    end
  else driverNames !! index.

(** Pairs of neighbours of the collected names; an odd last name is dropped. *)
Fixpoint pairUp (driverNames : list string) : list (string * string) :=
  match driverNames with
  | a :: b :: rest => (a, b) :: pairUp rest
  | _ => []
  end.

Definition createMirrorPairs (rc : RAIDController) (driverNames : list string)
  : list (string * string) := pairUp driverNames.

(** *** Fan-out of uploads and downloads *)

Record put : Type := mkPut { putDriver : string; putID : string; putData : bytes }.

(** Runs the uploads.  The result is the drivers afterwards and, for every
    failed upload, the driver's name: the contents of the error channel.
    [None]: a request names a driver that is not in the map. *)
Fixpoint uploadAll (ds : gmap string StorageDriver) (reqs : list put)
  : option (gmap string StorageDriver * list string) :=
  match reqs with
  | [] => Some (ds, [])
  | r :: reqs' =>
      match ds !! putDriver r with
      | None => None
      | Some d =>
          match UploadChunk d (putData r) (putID r) with
          | Some d' => uploadAll (<[putDriver r := d']> ds) reqs'
          | None =>
              match uploadAll ds reqs' with
              | Some (ds', errs) => Some (ds', putDriver r :: errs)
              | None => None
              end
          end
      end
  end.

(** One download: [None] for a nil driver (panic), otherwise what
    [DownloadChunk] returned. *)
Definition download (ds : gmap string StorageDriver) (name storageID : string)
  : option (option bytes) :=
  d ← ds !! name; Some (DownloadChunk d storageID).

(** *** RAID 0 *)

(** The byte range of strip [stripIndex], [None] when the goroutine returns
    at once because [start >= dataLen]. *)
Definition raid0Range (dataLen stripSize stripIndex : nat) : option (nat * nat) :=
  let start := stripIndex * stripSize in
  let end_ := start + stripSize in
  let end_ := if dataLen <? end_ then dataLen else end_ in
  if dataLen <=? start then None else Some (start, end_).

(** The upload of one goroutine of [writeRAID0Stripe]: [Some None] when it
    has nothing to write, [None] when selecting the driver panics. *)
Definition raid0Put (rc : RAIDController) (ord : nat -> list string)
    (stripeIndex : nat) (data : bytes) (fileID : string) (stripIndex : nat)
  : option (option put) :=
  let dataLen := length data in
  let stripSize := ceilDiv dataLen (stripeWidth rc) in
  match raid0Range dataLen stripSize stripIndex with
  | None => Some None
  | Some (start, end_) =>
      driverName ← selectDriverForStrip rc (ord stripIndex) stripeIndex stripIndex;
      Some (Some (mkPut driverName (raid0ID fileID stripeIndex stripIndex)
                        (slice data start end_)))
  end.

(** The chunks [writeRAID0Stripe] cuts a payload into, in strip order. *)
Definition raid0Chunks (width : nat) (data : bytes) : list bytes :=
  omap (fun i => match raid0Range (length data) (ceilDiv (length data) width) i with
                 | Some (start, end_) => Some (slice data start end_)
                 | None => None
                 end) (seq 0 width).

(** [ord i] is the order of the [range] run by the goroutine of strip [i]. *)
Definition writeRAID0Stripe (rc : RAIDController) (ord : nat -> list string)
    (stripeIndex : nat) (data : bytes) (fileID : string)
  : RAIDController * outcome error () :=
  match mapM (raid0Put rc ord stripeIndex data fileID) (seq 0 (stripeWidth rc)) with
  | None => (rc, Panic)
  | Some tasks =>
      match uploadAll (drivers rc) (omap id tasks) with
      | None => (rc, Panic)
      | Some (ds, []) => (withDrivers rc ds, Done ())
      | Some (ds, name :: _) => (withDrivers rc ds, Fail (ErrDriverWrite name))
      end
  end.

Definition readRAID0Stripe (rc : RAIDController) (ord : nat -> list string)
    (stripeIndex : nat) (fileID : string) : outcome error bytes :=
  let get stripIndex :=
    driverName ← selectDriverForStrip rc (ord stripIndex) stripeIndex stripIndex;
    download (drivers rc) driverName (raid0ID fileID stripeIndex stripIndex) in
  match mapM get (seq 0 (stripeWidth rc)) with
  | None => Panic
  | Some strips =>
      let errCh := filter (fun s => s = None) strips in
      if 0 <? length errCh then Fail ErrStripRead
      else Done (concat (omap id strips))
  end.

(** *** RAID 1 *)

(** [names] is the order of the one [range rc.drivers] of the call. *)
Definition writeRAID1Stripe (rc : RAIDController) (names : list string)
    (stripeIndex : nat) (data : bytes) (fileID : string)
  : RAIDController * outcome error () :=
  let reqs := (fun name => mkPut name (raid1ID fileID stripeIndex name) data) <$> names in
  match uploadAll (drivers rc) reqs with
  | None => (rc, Panic)
  | Some (ds, errCh) =>
      let successCount := size (drivers rc) - length errCh in
      if successCount =? 0 then (withDrivers rc ds, Fail ErrAllDriversFailed)
      else (withDrivers rc ds, Done ())
  end.

(** Modelled from the spec: [readRAID1Stripe] is called by [ReadFile] and is
    not among the sources.  Section 4.3: return the payload from any
    successful block; unrecoverable iff all blocks are missing.  The block of
    a driver has the RAID 1 storage id of section 6. *)
Definition readRAID1Stripe (rc : RAIDController) (names : list string)
    (stripeIndex : nat) (fileID : string) : outcome error bytes :=
  match mapM (fun name => download (drivers rc) name (raid1ID fileID stripeIndex name))
             names with
  | None => Panic
  | Some blocks =>
      match omap id blocks with
      | b :: _ => Done b
      | [] => Fail ErrAllMirrorsLost
      end
  end.

(** *** RAID 5 *)

(** [stripeWidth - 1] strips of [len(data) / (stripeWidth - 1)] bytes, the
    last one taking all that remains.  Width 0 asks [make] for a negative
    length and width 1 divides by zero: both panic. *)
Definition splitDataForRAID5 (rc : RAIDController) (data : bytes)
  : option (list bytes) :=
  match stripeWidth rc with
  | 0 | 1 => None
  | S n =>
      let stripSize := length data / n in
      Some ((fun i =>
               let start := i * stripSize in
               let end_ := if i =? stripeWidth rc - 2 then length data
                           else start + stripSize in
               slice data start end_) <$> seq 0 n)
  end.

(** The first loop of [calculateParity]: the greatest length. *)
Definition maxLen (strips : list bytes) : nat :=
  foldl (fun m strip => if m <? length strip then length strip else m) 0 strips.

(** The inner loop: [parity[i] ^= strip[i]] for [i < len(strip)].  Every
    index is within [parity], which has the greatest length. *)
Definition xorAt (strip parity : bytes) (i : nat) : bytes :=
  <[i := Z.lxor (default 0%Z (parity !! i)) (default 0%Z (strip !! i))]> parity.

Definition xorInto (parity strip : bytes) : bytes :=
  foldl (xorAt strip) parity (seq 0 (length strip)).

Definition calculateParity (strips : list bytes) : bytes :=
  match strips with
  | [] => []
  | _ => foldl xorInto (replicate (maxLen strips) 0%Z) strips
  end.

(** What the goroutine of strip [stripIndex] of [writeRAID5Stripe] is to
    store: the parity at [parityDriverIndex], the data strips in order at
    the other positions. *)
Definition raid5Strip (dataStrips : list bytes) (parityStrip : bytes)
    (parityDriverIndex stripIndex : nat) : bytes * stripType :=
  if stripIndex =? parityDriverIndex then (parityStrip, ParityStrip)
  else
    let dataIndex := if parityDriverIndex <? stripIndex then stripIndex - 1
                     else stripIndex in
    (if dataIndex <? length dataStrips then default [] (dataStrips !! dataIndex)
     else [], DataStrip).

Definition raid5Put (rc : RAIDController) (ord : nat -> list string)
    (stripeIndex : nat) (dataStrips : list bytes) (parityStrip : bytes)
    (fileID : string) (stripIndex : nat) : option (option put) :=
  let parityDriverIndex := stripeIndex mod stripeWidth rc in
  let '(stripData, stripTy) :=
    raid5Strip dataStrips parityStrip parityDriverIndex stripIndex in
  if length stripData =? 0 then Some None
  else
    driverName ← selectDriverByIndex rc (ord stripIndex) stripIndex;
    Some (Some (mkPut driverName (raid5ID fileID stripeIndex stripTy driverName)
                      stripData)).

Definition writeRAID5Stripe (rc : RAIDController) (ord : nat -> list string)
    (stripeIndex : nat) (data : bytes) (fileID : string)
  : RAIDController * outcome error () :=
  match splitDataForRAID5 rc data with
  | None => (rc, Panic)
  | Some dataStrips =>
      let parityStrip := calculateParity dataStrips in
      match mapM (raid5Put rc ord stripeIndex dataStrips parityStrip fileID)
                 (seq 0 (stripeWidth rc)) with
      | None => (rc, Panic)
      | Some tasks =>
          match uploadAll (drivers rc) (omap id tasks) with
          | None => (rc, Panic)
          | Some (ds, errCh) =>
              if 1 <? length errCh
              then (withDrivers rc ds, Fail ErrRAID5WriteFailures)
              else (withDrivers rc ds, Done ())
          end
      end
  end.

(** Concatenation of the strips that are neither the parity strip nor nil.
    [stripeIndex % len(strips)] panics on an empty slice. *)
Definition mergeRAID5Strips (strips : list (option bytes)) (stripeIndex : nat)
  : option bytes :=
  match length strips with
  | 0 => None
  | n =>
      let parityIndex := stripeIndex mod n in
      Some (concat (omap id (imap (fun i strip => if i =? parityIndex then None
                                                  else strip) strips)))
  end.

Definition recoverRAID5Stripe (strips : list (option bytes))
    (failedIndex stripeIndex : nat) : outcome error bytes :=
  match length strips with
  | 0 => Panic
  | n =>
      let parityIndex := stripeIndex mod n in
      if failedIndex =? parityIndex then
        match mergeRAID5Strips strips stripeIndex with
        | Some result => Done result
        | None => Panic
        end
      else Fail ErrRecoveryNotImplemented
  end.

(** The indices of the strips whose download failed. *)
Definition failedOf (strips : list (option bytes)) : list nat :=
  omap id (imap (fun i strip => match strip with None => Some i | Some _ => None end)
                strips).

(** The download of one goroutine of [readRAID5Stripe]. *)
Definition raid5Get (rc : RAIDController) (ord : nat -> list string)
    (stripeIndex : nat) (fileID : string) (stripIndex : nat)
  : option (option bytes) :=
  driverName ← selectDriverByIndex rc (ord stripIndex) stripIndex;
  let parityDriverIndex := stripeIndex mod stripeWidth rc in
  let stripTy := if stripIndex =? parityDriverIndex then ParityStrip else DataStrip in
  download (drivers rc) driverName (raid5ID fileID stripeIndex stripTy driverName).

Definition readRAID5Stripe (rc : RAIDController) (ord : nat -> list string)
    (stripeIndex : nat) (fileID : string) : outcome error bytes :=
  match mapM (raid5Get rc ord stripeIndex fileID) (seq 0 (stripeWidth rc)) with
  | None => Panic
  | Some strips =>
      match failedOf strips with
      | [] =>
          match mergeRAID5Strips strips stripeIndex with
          | Some result => Done result
          | None => Panic
          end
      | [failedIndex] => recoverRAID5Stripe strips failedIndex stripeIndex
      | _ => Fail ErrMultipleLost
      end
  end.

(** *** RAID 10 *)

(** The two uploads of every mirror pair.  [names] is the order of the
    [range] inside [createMirrorPairs].  No pair: the division panics.  Every
    goroutine sees the [pairIndex] of its own iteration (Go 1.22). *)
Definition raid10Puts (rc : RAIDController) (names : list string)
    (stripeIndex : nat) (data : bytes) (fileID : string) : option (list put) :=
  let mirrorPairs := createMirrorPairs rc names in
  let stripsPerPair := length mirrorPairs in
  match stripsPerPair with
  | 0 => None
  | _ =>
      let stripSize := length data / stripsPerPair in
      Some (concat (imap (fun pairIndex (pair : string * string) =>
        let start := pairIndex * stripSize in
        let end_ := if pairIndex =? stripsPerPair - 1 then length data
                    else start + stripSize in
        let pairData := slice data start end_ in
        [mkPut pair.1 (raid10ID fileID stripeIndex pairIndex pair.1) pairData;
         mkPut pair.2 (raid10ID fileID stripeIndex pairIndex pair.2) pairData])
        mirrorPairs))
  end.

Definition writeRAID10Stripe (rc : RAIDController) (names : list string)
    (stripeIndex : nat) (data : bytes) (fileID : string)
  : RAIDController * outcome error () :=
  match raid10Puts rc names stripeIndex data fileID with
  | None => (rc, Panic)
  | Some reqs =>
      match uploadAll (drivers rc) reqs with
      | None => (rc, Panic)
      | Some (ds, errCh) =>
          let stripsPerPair := length (createMirrorPairs rc names) in
          if stripsPerPair <? length errCh
          then (withDrivers rc ds, Fail ErrRAID10WriteFailures)
          else (withDrivers rc ds, Done ())
      end
  end.

(** Modelled from the spec: [readRAID10Stripe] is called by [ReadFile] and
    is not among the sources.  Section 4.3: for each pair, pick any
    surviving member's block; unrecoverable iff both members of any pair
    are missing.  Blocks have the RAID 10 storage ids of section 6. *)
Definition readRAID10Stripe (rc : RAIDController) (names : list string)
    (stripeIndex : nat) (fileID : string) : outcome error bytes :=
  let get pairIndex (pair : string * string) : option (option bytes) :=
    a ← download (drivers rc) pair.1 (raid10ID fileID stripeIndex pairIndex pair.1);
    b ← download (drivers rc) pair.2 (raid10ID fileID stripeIndex pairIndex pair.2);
    Some (match a with Some _ => a | None => b end) in
  match mapM id (imap get (createMirrorPairs rc names)) with
  | None => Panic
  | Some chunks =>
      match mapM id chunks with
      | Some found => Done (concat found)
      | None => Fail ErrAllMirrorsLost
      end
  end.

(** *** Whole files *)

(** [ord s i] is the order of the [range] run while stripe [s] is handled,
    by the goroutine of strip [i] for RAID 0 and RAID 5, and by the stripe
    itself (at [i = 0]) for RAID 1 and RAID 10. *)
Definition rangeOracle := nat -> nat -> list string.

(** The [switch rc.level] of [WriteFile], with its error wrapping.  A level
    outside the four cases writes nothing. *)
Definition writeStripe (rc : RAIDController) (ord : rangeOracle)
    (stripeIndex : nat) (stripeData : bytes) (fileID : string)
  : RAIDController * outcome error () :=
  let wrap (r : RAIDController * outcome error ()) :=
    match r with
    | (rc', Fail err) => (rc', Fail (ErrWriteStripe (level rc) err))
    | _ => r
    end in
  match level rc with
  | 0%Z => wrap (writeRAID0Stripe rc (ord stripeIndex) stripeIndex stripeData fileID)
  | 1%Z => wrap (writeRAID1Stripe rc (ord stripeIndex 0) stripeIndex stripeData fileID)
  | 5%Z => wrap (writeRAID5Stripe rc (ord stripeIndex) stripeIndex stripeData fileID)
  | 10%Z => wrap (writeRAID10Stripe rc (ord stripeIndex 0) stripeIndex stripeData fileID)
  | _ => (rc, Done ())
  end.

(** The stripe loop of [WriteFile] over the stripe indices still to do. *)
Fixpoint writeStripes (rc : RAIDController) (ord : rangeOracle) (data : bytes)
    (fileID : string) (todo : list nat) : RAIDController * outcome error () :=
  match todo with
  | [] => (rc, Done ())
  | stripeIndex :: todo' =>
      let fileSize := length data in
      let start := stripeIndex * stripeSize rc in
      let end_ := start + stripeSize rc in
      let end_ := if fileSize <? end_ then fileSize else end_ in
      match writeStripe rc ord stripeIndex (slice data start end_) fileID with
      | (rc', Done _) => writeStripes rc' ord data fileID todo'
      | r => r
      end
  end.

(** [WriteFile]; [nowNano] is the clock reading of [generateFileID].  The
    stripe size is positive. *)
Definition WriteFile (rc : RAIDController) (ord : rangeOracle) (nowNano : Z)
    (fileName : string) (data : bytes) : RAIDController * outcome error string :=
  let fileID := generateFileID fileName nowNano in
  let fileSize := length data in
  let stripeCount := ceilDiv fileSize (stripeSize rc) in
  match writeStripes rc ord data fileID (seq 0 stripeCount) with
  | (rc', Done _) => (rc', Done fileID)
  | (rc', Fail err) => (rc', Fail err)
  | (rc', Panic) => (rc', Panic)
  end.

(** The [switch rc.level] of [ReadFile]. *)
Definition readStripe (rc : RAIDController) (ord : rangeOracle)
    (stripeIndex : nat) (fileID : string) : outcome error bytes :=
  match level rc with
  | 0%Z => readRAID0Stripe rc (ord stripeIndex) stripeIndex fileID
  | 1%Z => readRAID1Stripe rc (ord stripeIndex 0) stripeIndex fileID
  | 5%Z => readRAID5Stripe rc (ord stripeIndex) stripeIndex fileID
  | 10%Z => readRAID10Stripe rc (ord stripeIndex 0) stripeIndex fileID
  | _ => Done []
  end.

Fixpoint readStripes (rc : RAIDController) (ord : rangeOracle) (fileID : string)
    (fullData : bytes) (todo : list nat) : outcome error bytes :=
  match todo with
  | [] => Done fullData
  | stripeIndex :: todo' =>
      match readStripe rc ord stripeIndex fileID with
      | Done stripeData => readStripes rc ord fileID (fullData ++ stripeData) todo'
      | Fail err => Fail (ErrReadStripe stripeIndex err)
      | Panic => Panic
      end
  end.

(** [ReadFile]: the stripe count is the constant 2 of the source. *)
Definition ReadFile (rc : RAIDController) (ord : rangeOracle) (fileID : string)
  : outcome error bytes :=
  let stripeCount := 2 in
  readStripes rc ord fileID [] (seq 0 stripeCount).

(** *** Controllers and payloads of the scenarios *)

Definition fleet (names : list string) (d : StorageDriver)
  : gmap string StorageDriver := list_to_map ((fun n => (n, d)) <$> names).

(** One order for every [range]: the most favourable case. *)
Definition steady (names : list string) : rangeOracle := fun _ _ => names.

Definition controller (lvl : RAIDLevel) (names : list string) (stripeSz : nat)
  : RAIDController := mkController lvl (fleet names healthy) stripeSz (length names).

(** *** Definitions used by the statements *)

(** XOR of a list of bytes. *)
Definition xorAll (bs : bytes) : Z := foldr Z.lxor 0%Z bs.

(** Whether the upload [r] is refused by the driver it names. *)
Definition putFailsIn (ds : gmap string StorageDriver) (r : put) : bool :=
  match ds !! putDriver r with
  | Some d => putFails d (putID r)
  | None => false
  end.

(** The blob under [storageID] of driver [name] after the uploads [reqs],
    [old] being there before: the last accepted upload to that place. *)
Definition storedAfter (fails : string -> bool) (name storageID : string)
    (old : option bytes) (reqs : list put) : option bytes :=
  foldl (fun acc r =>
           if bool_decide (putDriver r = name ∧ putID r = storageID)
              && negb (fails (putID r))
           then Some (putData r) else acc) old reqs.

(** The chunk of strip [i], when it has one. *)
Definition raid0Chunk (width : nat) (data : bytes) (i : nat) : option bytes :=
  match raid0Range (length data) (ceilDiv (length data) width) i with
  | Some (start, end_) => Some (slice data start end_)
  | None => None
  end.

(** The layout section 4.3 words for RAID 0: [width] equal chunks, the last
    one absorbing the remainder. *)
Definition specChunkSizes (width dataLen : nat) : list nat :=
  replicate (width - 1) (dataLen / width) ++ [dataLen / width + dataLen mod width].

(** Four drivers, the two of the first mirror pair refusing every upload. *)
Definition deadPair : RAIDController :=
  mkController RAID10
    (<["d0" := rejecting]> (<["d1" := rejecting]>
       (fleet ["d0"; "d1"; "d2"; "d3"] healthy))) 16 4.

(** A driver whose downloads all fail from now on. *)
Definition failGets (d : StorageDriver) : StorageDriver :=
  mkDriver (blobs d) (putFails d) (fun _ => true).

(** Scenario 3 of section 8: three drivers, the payload 0x01..0x08 in one
    stripe of 8 bytes, written with every upload accepted. *)
Definition scenario3 : RAIDController :=
  fst (writeRAID5Stripe (controller RAID5 ["d0"; "d1"; "d2"] 8)
                        (fun _ => ["d0"; "d1"; "d2"]) 0 (Z.of_nat <$> seq 1 8) "f").

(** [ReadFile] of the id [WriteFile] returned, on the drivers as the write
    left them; [ordW] and [ordR] are the traversal orders of the two calls. *)
Definition roundTrip (rc : RAIDController) (ordW ordR : rangeOracle)
    (fileName : string) (data : bytes) : outcome error bytes :=
  match WriteFile rc ordW 0 fileName data with
  | (rc', Done fileID) => ReadFile rc' ordR fileID
  | (_, Fail err) => Fail err
  | (_, Panic) => Panic
  end.

(** The levels all of whose read and write paths are in the source, and the
    two whose stripe reads are modelled from the spec. *)
Definition stripedLevels : list RAIDLevel := [RAID0; RAID5].
Definition mirroredLevels : list RAIDLevel := [RAID1; RAID10].

(** Two mirrors, the first refusing every upload. *)
Definition oneAlive : RAIDController :=
  mkController RAID1 (<["d0" := rejecting]> (fleet ["d0"; "d1"] healthy)) 8 2.

End Raid.

(** ** src/scheduler/raid_scheduler.go *)

Module Scheduler.

(** [DriverMetrics].  [AvgLatency] is a [time.Duration] (int64 nanoseconds),
    [LastErrorTime] a [time.Time], counted in nanoseconds from the zero
    time, which is the value of a metric that never saw an error. *)
Record DriverMetrics : Type := mkMetrics {
  Name : string;
  AvgLatency : Z;
  SuccessRate : float;
  CurrentLoad : Z;
  AvailableSpace : Z;
  LastErrorTime : Z;
}.

(** [RAIDScheduler]: the metrics table and the two policy switches.  The
    driver handles serve the background probe only. *)
Record RAIDScheduler : Type := mkScheduler {
  metrics : gmap string DriverMetrics;
  preferLowLatency : bool;
  balanceLoad : bool;
}.

Definition millisecond : Z := 1000000.
Definition minute : Z := 60 * 1000 * millisecond.

(** The metrics [NewRAIDScheduler] starts every driver with. *)
Definition initialMetrics (name : string) : DriverMetrics :=
  mkMetrics name (100 * millisecond) 1%float 0 0 0.

Definition NewRAIDScheduler (driverNames : list string) : RAIDScheduler :=
  mkScheduler (list_to_map ((fun name => (name, initialMetrics name)) <$> driverNames))
              true true.

(** [time.Since(t)] at the instant [now]: the difference, saturated to the
    range of a [time.Duration]. *)
Definition minDuration : Z := - 2 ^ 63.
Definition maxDuration : Z := 2 ^ 63 - 1.

Definition since (now t : Z) : Z :=
  let d := (now - t)%Z in
  if (d <? minDuration)%Z then minDuration
  else if (maxDuration <? d)%Z then maxDuration else d.

(** The package's [min] on [int]. *)
Definition min (a b : nat) : nat := if a <? b then a else b.

(** The metric behind [rs.metrics[name]].  Every name the selection handles
    was taken from the keys of the table. *)
Definition metricOf (rs : RAIDScheduler) (name : string) : DriverMetrics :=
  default (mkMetrics name 0 0%float 0 0 0) (metrics rs !! name).

(** The health test of [getAvailableDrivers] for one entry of the table. *)
Definition healthy (now : Z) (metric : DriverMetrics) : bool :=
  (0.8 <? SuccessRate metric)%float
  && (5 * minute <? since now (LastErrorTime metric))%Z.

(** [names] is the order of the [range rs.metrics]; [now] the clock. *)
Definition getAvailableDrivers (rs : RAIDScheduler) (now : Z) (names : list string)
    (excludeDrivers : list string) : list string :=
  filter (fun name =>
            match metrics rs !! name with
            | Some metric =>
                negb (bool_decide (name ∈ excludeDrivers)) && healthy now metric
            | None => false
            end = true) names.

(** *** sort.Slice *)

(** What [sort.Slice] asks of [less] on the elements it sorts: a strict
    weak ordering. *)
Definition strictWeak (less : string → string → bool) (l : list string) : Prop :=
  (∀ a, a ∈ l → less a a = false) ∧
  (∀ a b c, a ∈ l → b ∈ l → c ∈ l →
            less a b = true → less b c = true → less a c = true) ∧
  (∀ a b c, a ∈ l → b ∈ l → c ∈ l →
            less a b = false → less b c = false → less a c = false).

(** A slice is in order when no element is less than one before it. *)
Definition ordered (less : string → string → bool) (l : list string) : Prop :=
  ∀ i j a b, i < j → l !! i = Some a → l !! j = Some b → less b a = false.

(** [sort.Slice] of the Go library, a parameter of the selection.  Its
    contract: the result holds the same elements, and is in order when
    [less] is a strict weak ordering; the sort need not be stable. *)
Definition sortFn : Type := (string → string → bool) → list string → list string.

Definition sortContract (sortSlice : sortFn) : Prop :=
  (∀ less l, sortSlice less l ≡ₚ l) ∧
  (∀ less l, strictWeak less l → ordered less (sortSlice less l)).

(** *** Sorting the candidates *)

Definition lessPerformance (rs : RAIDScheduler) (a b : string) : bool :=
  let mi := metricOf rs a in
  let mj := metricOf rs b in
  if negb (AvgLatency mi =? AvgLatency mj)%Z then (AvgLatency mi <? AvgLatency mj)%Z
  else (SuccessRate mj <? SuccessRate mi)%float.

Definition lessReliability (rs : RAIDScheduler) (a b : string) : bool :=
  let mi := metricOf rs a in
  let mj := metricOf rs b in
  if negb (SuccessRate mi =? SuccessRate mj)%float
  then (SuccessRate mj <? SuccessRate mi)%float
  else (LastErrorTime mi <? LastErrorTime mj)%Z.

(** [float64(n)] of an int64. *)
Definition float64 (n : Z) : float :=
  if (n <? 0)%Z then
    if (n =? - 2 ^ 63)%Z then (- (of_uint63 (Uint63.of_Z (2 ^ 62)) * 2))%float
    else (- of_uint63 (Uint63.of_Z (- n)))%float
  else of_uint63 (Uint63.of_Z n).

Definition tenGiB : Z := 10 * 1024 * 1024 * 1024.

(** Every operation is rounded on its own, as on amd64. *)
Definition calculateScore (rs : RAIDScheduler) (driverName : string) : float :=
  match metrics rs !! driverName with
  | None => 0%float
  | Some metric =>
      let score := 0%float in
      let latencyScore :=
        (1 / (float64 (AvgLatency metric ÷ millisecond) + 1))%float in
      let score := (score + latencyScore * 0.3)%float in
      let score := (score + SuccessRate metric * 0.4)%float in
      let loadScore := (1 / (float64 (CurrentLoad metric) + 1))%float in
      let score := (score + loadScore * 0.2)%float in
      if (0 <? AvailableSpace metric)%Z then
        let spaceScore :=
          (float64 (Z.min (AvailableSpace metric) tenGiB) / float64 tenGiB)%float in
        (score + spaceScore * 0.1)%float
      else score
  end.

Definition lessScore (rs : RAIDScheduler) (a b : string) : bool :=
  (calculateScore rs b <? calculateScore rs a)%float.

Section selection.
Variable sortSlice : sortFn.
Variable rs : RAIDScheduler.

Definition sortDriversByPerformance (drivers : list string) : list string :=
  sortSlice (lessPerformance rs) drivers.

Definition sortDriversByReliability (drivers : list string) : list string :=
  sortSlice (lessReliability rs) drivers.

Definition sortDriversByScore (drivers : list string) : list string :=
  sortSlice (lessScore rs) drivers.

Definition selectForRAID0 (availableDrivers : list string) : list string :=
  let sorted := sortDriversByPerformance availableDrivers in
  let count := min 4 (length sorted) in
  take count sorted.

Definition selectForRAID1 (availableDrivers : list string) : list string :=
  let sorted := sortDriversByReliability availableDrivers in
  let count := min 2 (length sorted) in
  take count sorted.

(** [l[i], l[j] = l[j], l[i]] for indices within the slice. *)
Definition swap (l : list string) (i j : nat) : list string :=
  match l !! i, l !! j with
  | Some a, Some b => <[i := b]> (<[j := a]> l)
  | _, _ => l
  end.

Definition selectForRAID5 (availableDrivers : list string) (stripeIndex : nat)
  : list string :=
  if length availableDrivers <? 3 then availableDrivers
  else
    let sorted := sortDriversByScore availableDrivers in
    let count := min 5 (length sorted) in
    let selected := take count sorted in
    let parityIndex := stripeIndex mod length selected in
    if parityIndex <? length selected - 1
    then swap selected parityIndex (length selected - 1)
    else selected.

Definition selectForRAID10 (availableDrivers : list string) : list string :=
  if length availableDrivers <? 4 then availableDrivers
  else
    let sorted := sortDriversByReliability availableDrivers in
    let count := min 8 (length sorted) in
    let count := if negb (count mod 2 =? 0) then count - 1 else count in
    take count sorted.

(** [names] is the order of the [range] in [getAvailableDrivers], [now] the
    reading of the clock there.  The stripe index is not negative. *)
Definition SelectDriversForStripe (now : Z) (names : list string) (raidLevel : Z)
    (stripeIndex : nat) (excludeDrivers : list string) : list string :=
  let availableDrivers := getAvailableDrivers rs now names excludeDrivers in
  match raidLevel with
  | 0%Z => selectForRAID0 availableDrivers
  | 1%Z => selectForRAID1 availableDrivers
  | 5%Z => selectForRAID5 availableDrivers stripeIndex
  | 10%Z => selectForRAID10 availableDrivers
  | _ => take (min 4 (length availableDrivers)) availableDrivers
  end.

End selection.

(** *** The insertion sort of the Go library

    [sort.Slice] sorts slices of at most 12 elements by insertion: every
    element moves towards the front while it is less than the one before
    it.  [sortedRev] is the part already sorted, last element first. *)

Fixpoint insertBack (less : string → string → bool) (x : string)
    (sortedRev : list string) : list string :=
  match sortedRev with
  | [] => [x]
  | y :: rest => if less x y then y :: insertBack less x rest else x :: sortedRev
  end.

Definition insertionSort (less : string → string → bool) (l : list string)
  : list string :=
  reverse (foldl (fun sortedRev x => insertBack less x sortedRev) [] l).

(** *** The scenarios of section 8 *)

Definition fiveDrivers : list string := ["d0"; "d1"; "d2"; "d3"; "d4"].

(** Five drivers with identical metrics, as [NewRAIDScheduler] sets them. *)
Definition equalMetrics : RAIDScheduler := NewRAIDScheduler fiveDrivers.

(** Latencies of 10 to 50 ms; d4 has a success rate of exactly 0.8. *)
Definition mixedMetrics : RAIDScheduler :=
  mkScheduler
    (list_to_map [("d0", mkMetrics "d0" (10 * millisecond) 1 0 0 0);
                  ("d1", mkMetrics "d1" (20 * millisecond) 1 0 0 0);
                  ("d2", mkMetrics "d2" (30 * millisecond) 1 0 0 0);
                  ("d3", mkMetrics "d3" (40 * millisecond) 1 0 0 0);
                  ("d4", mkMetrics "d4" (50 * millisecond) 0.8 0 tenGiB 0)])
    true true.

(** A clock reading some 2025 years after the zero time. *)
Definition noon : Z := 63900000000 * 1000 * millisecond.

End Scheduler.

(** ** src/metaddata/manager.go *)

Module Metadata.

(** The records of the package; a [time.Time] is a count of nanoseconds. *)
Record StripMetadata : Type := mkStrip {
  StripIndex : Z;
  DriverName : string;
  StorageID : string;
  StripSize : Z;
  IsParity : bool;
  Checksum : string;
  StripCreatedAt : Z;
}.

Record StripeMetadata : Type := mkStripe {
  StripeIndex : Z;
  Strips : list StripMetadata;
  ParityStrip : option StripMetadata;
}.

Record DriverInfo : Type := mkDriverInfo {
  Name : string;
  Health : string;
  LastCheck : Z;
  UsedSpace : Z;
  TotalSpace : Z;
}.

Record FileMetadata : Type := mkFile {
  FileID : string;
  FileName : string;
  FileSize : Z;
  RAIDLevel : Z;
  StripeSize : Z;
  StripeCount : Z;
  CreatedAt : Z;
  UpdatedAt : Z;
  Hash : string;
  Stripes : list StripeMetadata;
  DriverMap : gmap string DriverInfo;
}.

(** [MetadataManager]: [metadata] is the in-memory cache. *)
Record MetadataManager : Type := mkManager {
  basePath : string;
  metadata : gmap string FileMetadata;
  driverHealth : gmap string DriverInfo;
}.

(** What [os.ReadFile] and then [json.Unmarshal] make of a file that exists:
    the read fails, or the content does not parse, or it decodes to a record.
    A path that is not in the map does not exist. *)
Inductive diskFile : Type :=
| Unreadable
| Garbled
| Encoded (fm : FileMetadata).

Inductive error : Type :=
| ErrNotExist (fileID : string)   (* the file does not exist *)
| ErrRead                         (* reading the metadata failed *)
| ErrParse.                       (* parsing the metadata failed *)

(** [filepath.Join(mm.basePath, fileID+".json")] for a clean base path and
    an id without path separators. *)
Definition pathOf (mm : MetadataManager) (fileID : string) : string :=
  basePath mm +:+ "/" +:+ fileID +:+ ".json".

Definition GetFileMetadata (mm : MetadataManager) (dsk : gmap string diskFile)
    (fileID : string) : MetadataManager * outcome error FileMetadata :=
  match metadata mm !! fileID with
  | Some fm => (mm, Done fm)
  | None =>
      match dsk !! pathOf mm fileID with
      | None => (mm, Fail (ErrNotExist fileID))
      | Some Unreadable => (mm, Fail ErrRead)
      | Some Garbled => (mm, Fail ErrParse)
      | Some (Encoded fm) =>
          (mkManager (basePath mm) (<[fileID := fm]> (metadata mm)) (driverHealth mm),
           Done fm)
      end
  end.

(** Modelled from the spec: the validation of section 4.1 that the source
    does not have.  Section 3: stripe indices are dense from 0, block
    indices within a stripe are dense from 0, and a stripe has exactly one
    block of role Parity iff the RAID level of the file is 5. *)
Definition dense (indices : list Z) : bool :=
  bool_decide (indices = Z.of_nat <$> seq 0 (length indices)).

Definition specInvariants (fm : FileMetadata) : bool :=
  dense (StripeIndex <$> Stripes fm)
  && forallb (fun stripe =>
                dense (StripIndex <$> Strips stripe)
                && Bool.eqb (length (filter (fun s => IsParity s = true) (Strips stripe)) =? 1)
                            (RAIDLevel fm =? 5)%Z)
             (Stripes fm).

(** A record whose stripes are numbered 0 and 2. *)
Definition gappedRecord : FileMetadata :=
  mkFile "f" "report.bin" 8 0 4 2 0 0 ""
         [mkStripe 0 [mkStrip 0 "d0" "f_s0_st0" 4 false "" 0] None;
          mkStripe 2 [mkStrip 0 "d1" "f_s1_st0" 4 false "" 0] None] ∅.

Definition emptyManager : MetadataManager := mkManager "meta" ∅ ∅.

End Metadata.

(** ** Order of float64 values

    [SuccessRate] and the composite score are float64 values, embedded as
    the kernel's binary64 floats.  The comparisons [<] and [<=] order the
    values that are not NaN totally; the facts needed about them are derived
    here from the specification of the primitive operations. *)

Module FloatOrder.
Local Open Scope Z_scope.

(** A key that orders the numbers that are not NaN: the class (minus
    infinity, negative, zero, positive, plus infinity), then exponent and
    mantissa, negated for negative numbers. *)
Definition key (x : spec_float) : Z * Z * Z :=
  match x with
  | S754_nan => (0, 0, 0)
  | S754_infinity true => (-2, 0, 0)
  | S754_infinity false => (2, 0, 0)
  | S754_zero _ => (0, 0, 0)
  | S754_finite true m e => (-1, - e, - Zpos m)
  | S754_finite false m e => (1, e, Zpos m)
  end.

Definition lexLt (a b : Z * Z * Z) : Prop :=
  a.1.1 < b.1.1 ∨ (a.1.1 = b.1.1 ∧ (a.1.2 < b.1.2 ∨ (a.1.2 = b.1.2 ∧ a.2 < b.2))).

Definition notNaN (x : spec_float) : Prop := x ≠ S754_nan.

(** A number with the sign bit [s]. *)
Definition signed (s : bool) (x : spec_float) : Prop :=
  match x with
  | S754_nan => False
  | S754_zero s' | S754_infinity s' | S754_finite s' _ _ => s' = s
  end.

Ltac lex_case :=
  let H := fresh in let H1 := fresh in let H2 := fresh in let H3 := fresh in
  split;
  [ intros H; first [discriminate H | split; [discriminate|split; [discriminate|lia]]]
  | intros (H1 & H2 & H3);
    first [reflexivity | exfalso; first [by apply H1 | by apply H2 | lia]] ].

Ltac lex_cases e1 e2 m1 m2 :=
  change (PosDef.Pos.compare_cont Eq m1 m2) with (Pos.compare m1 m2);
  destruct (Z.compare_spec e1 e2); simpl;
  try destruct (Pos.compare_spec m1 m2); simpl; lex_case.

Lemma SFltb_key x y :
  SFltb x y = true ↔ notNaN x ∧ notNaN y ∧ lexLt (key x) (key y).
Proof.
  unfold SFltb, notNaN, lexLt.
  destruct x as [[]|[]| |[] m1 e1], y as [[]|[]| |[] m2 e2]; simpl;
    try lex_case; lex_cases e1 e2 m1 m2.
Qed.

Lemma SFeqb_refl x : SFeqb x x = true ↔ notNaN x.
Proof.
  unfold SFeqb, notNaN. destruct x as [[]|[]| |[] m e]; simpl; try done.
  all: change (PosDef.Pos.compare_cont Eq m m) with (Pos.compare m m).
  all: rewrite Z.compare_refl, Pos.compare_refl; done.
Qed.

Lemma SFleb_key x y :
  SFleb x y = true ↔ notNaN x ∧ notNaN y ∧ ¬ lexLt (key y) (key x).
Proof.
  unfold SFleb, notNaN, lexLt.
  destruct x as [[]|[]| |[] m1 e1], y as [[]|[]| |[] m2 e2]; simpl;
    try lex_case; lex_cases e1 e2 m1 m2.
Qed.

Lemma lexLt_irrefl a : ¬ lexLt a a.
Proof. unfold lexLt. lia. Qed.

Lemma lexLt_trans a b c : lexLt a b → lexLt b c → lexLt a c.
Proof. unfold lexLt. lia. Qed.

Lemma lexLt_negtrans a b c : ¬ lexLt a b → ¬ lexLt b c → ¬ lexLt a c.
Proof. unfold lexLt. lia. Qed.

(** The same for the primitive floats, through their specification. *)

Lemma is_nan_false x : is_nan x = false ↔ notNaN (Prim2SF x).
Proof.
  unfold is_nan. rewrite (FloatAxioms.eqb_spec x x).
  pose proof (SFeqb_refl (Prim2SF x)) as H.
  destruct (SFeqb _ _); simpl; naive_solver.
Qed.

Lemma ltb_lexLt x y :
  (x <? y)%float = true ↔
  is_nan x = false ∧ is_nan y = false ∧ lexLt (key (Prim2SF x)) (key (Prim2SF y)).
Proof. by rewrite FloatAxioms.ltb_spec, SFltb_key, !is_nan_false. Qed.

Lemma leb_lexLt x y :
  (x <=? y)%float = true ↔
  is_nan x = false ∧ is_nan y = false ∧ ¬ lexLt (key (Prim2SF y)) (key (Prim2SF x)).
Proof. by rewrite FloatAxioms.leb_spec, SFleb_key, !is_nan_false. Qed.

Lemma ltb_irrefl x : (x <? x)%float = false.
Proof.
  apply not_true_is_false. intros (_ & _ & H)%ltb_lexLt. by apply lexLt_irrefl in H.
Qed.

Lemma ltb_trans x y z :
  (x <? y)%float = true → (y <? z)%float = true → (x <? z)%float = true.
Proof.
  rewrite !ltb_lexLt. intros (? & ? & ?) (? & ? & ?).
  eauto using lexLt_trans.
Qed.

Lemma ltb_negtrans x y z :
  is_nan x = false → is_nan y = false → is_nan z = false →
  (x <? y)%float = false → (y <? z)%float = false → (x <? z)%float = false.
Proof.
  intros Hx Hy Hz Hxy Hyz. apply not_true_is_false. intros (_ & _ & H)%ltb_lexLt.
  apply (lexLt_negtrans _ (key (Prim2SF y)) _) in H; [done|..].
  - intros Hlt. assert ((x <? y)%float = true) by (by apply ltb_lexLt). congruence.
  - intros Hlt. assert ((y <? z)%float = true) by (by apply ltb_lexLt). congruence.
Qed.

Lemma ltb_not_leb x y : (x <? y)%float = true → (y <=? x)%float = false.
Proof.
  intros (_ & _ & H)%ltb_lexLt. apply not_true_is_false.
  intros (_ & _ & H')%leb_lexLt. done.
Qed.

(** *** Signs through the arithmetic

    Rounding keeps the sign of what it rounds, so sums, products and
    quotients of numbers that are not negative are numbers, never NaN. *)

Section signed.
Variables prec emax : Z.

Lemma shr_1_nonneg mrs : 0 ≤ shr_m mrs → 0 ≤ shr_m (shr_1 mrs).
Proof. destruct mrs as [[|[p|p|]|p] r s]; simpl; lia. Qed.

Lemma iter_pos_invariant {A} (P : A → Prop) (f : A → A) n x :
  (∀ y, P y → P (f y)) → P x → P (SpecFloat.iter_pos f n x).
Proof.
  intros Hf. revert x. induction n as [n IH|n IH|]; simpl; auto.
Qed.

Lemma shr_nonneg mrs e n : 0 ≤ shr_m mrs → 0 ≤ shr_m (shr mrs e n).1.
Proof.
  intros H. destruct n; simpl; try done.
  by apply (iter_pos_invariant (fun r => 0 ≤ shr_m r) shr_1); [apply shr_1_nonneg|].
Qed.

Lemma shr_fexp_nonneg m e l : 0 ≤ m → 0 ≤ shr_m (shr_fexp prec emax m e l).1.
Proof.
  intros H. unfold shr_fexp. apply shr_nonneg. by destruct l as [|[]].
Qed.

Lemma round_nearest_even_nonneg m l : 0 ≤ m → 0 ≤ round_nearest_even m l.
Proof.
  intros H. destruct l as [|[]]; simpl; try lia. destruct (Z.even m); lia.
Qed.

Lemma binary_round_aux_signed s m e l :
  0 ≤ m → signed s (binary_round_aux prec emax s m e l).
Proof.
  intros H. unfold binary_round_aux.
  pose proof (shr_fexp_nonneg m e l H) as H1.
  destruct (shr_fexp prec emax m e l) as [mrs' e'].
  pose proof (shr_fexp_nonneg _ e' loc_Exact
                (round_nearest_even_nonneg _ (loc_of_shr_record mrs') H1)) as H2.
  destruct (shr_fexp prec emax _ e' loc_Exact) as [mrs'' e''].
  simpl in H2. destruct (shr_m mrs''); [done| |lia].
  by destruct (_ <=? _).
Qed.

Lemma binary_round_signed s m e : signed s (binary_round prec emax s m e).
Proof.
  unfold binary_round. destruct (shl_align _ _ _) as [mz ez].
  by apply binary_round_aux_signed.
Qed.

Lemma binary_normalize_nonneg m e : 0 ≤ m → signed false (binary_normalize prec emax m e false).
Proof.
  intros H. destruct m; simpl; [done| |lia]. apply binary_round_signed.
Qed.

Lemma SFadd_nonneg x y :
  signed false x → signed false y → signed false (SFadd prec emax x y).
Proof.
  destruct x as [[]|[]| |[] mx ex], y as [[]|[]| |[] my ey]; simpl; try done.
  intros _ _. apply binary_round_signed.
Qed.

Lemma SFmul_nonneg x m e :
  signed false x → signed false (SFmul prec emax x (S754_finite false m e)).
Proof.
  destruct x as [[]|[]| |[] mx ex]; simpl; try done.
  intros _. by apply binary_round_aux_signed.
Qed.

Lemma SFdiv_core_nonneg m1 e1 m2 e2 :
  0 ≤ (SFdiv_core_binary prec emax (Zpos m1) e1 (Zpos m2) e2).1.1.
Proof.
  unfold SFdiv_core_binary.
  set (s := _ - _ - _).
  set (m' := match s with Z0 => _ | Zpos _ => _ | Zneg _ => _ end).
  assert (0 ≤ m').
  { subst m'. destruct s; try lia. apply Z.shiftl_nonneg. lia. }
  pose proof (Z.div_eucl_eq m' (Zpos m2) ltac:(lia)) as Heq.
  pose proof (Z.mod_pos_bound m' (Zpos m2) ltac:(lia)) as Hmod.
  unfold Z.modulo in Hmod.
  destruct (Z.div_eucl m' (Z.pos m2)) as [q r]. simpl. nia.
Qed.

Lemma SFdiv_nonneg_l m e y :
  signed false y → signed false (SFdiv prec emax (S754_finite false m e) y).
Proof.
  destruct y as [[]|[]| |[] my ey]; simpl; try done.
  intros _. pose proof (SFdiv_core_nonneg m e my ey) as H.
  destruct (SFdiv_core_binary _ _ _ _ _ _) as [[mz ez] lz].
  by apply binary_round_aux_signed.
Qed.

Lemma SFdiv_nonneg_r x m e :
  signed false x → signed false (SFdiv prec emax x (S754_finite false m e)).
Proof.
  destruct x as [[]|[]| |[] mx ex]; simpl; try done.
  intros _. pose proof (SFdiv_core_nonneg mx ex m e) as H.
  destruct (SFdiv_core_binary _ _ _ _ _ _) as [[mz ez] lz].
  by apply binary_round_aux_signed.
Qed.

End signed.

Definition nonnegative (x : float) : Prop := signed false (Prim2SF x).

Lemma nonnegative_not_nan x : nonnegative x → is_nan x = false.
Proof.
  unfold nonnegative. intros H. apply is_nan_false. unfold notNaN.
  by destruct (Prim2SF x).
Qed.

Lemma add_nonnegative x y :
  nonnegative x → nonnegative y → nonnegative (x + y).
Proof. unfold nonnegative. rewrite FloatAxioms.add_spec. apply SFadd_nonneg. Qed.

Lemma mul_nonnegative x c m e :
  Prim2SF c = S754_finite false m e → nonnegative x → nonnegative (x * c).
Proof. unfold nonnegative. rewrite FloatAxioms.mul_spec. intros ->. apply SFmul_nonneg. Qed.

Lemma div_nonnegative_l c m e x :
  Prim2SF c = S754_finite false m e → nonnegative x → nonnegative (c / x).
Proof. unfold nonnegative. rewrite FloatAxioms.div_spec. intros ->. apply SFdiv_nonneg_l. Qed.

Lemma div_nonnegative_r x c m e :
  Prim2SF c = S754_finite false m e → nonnegative x → nonnegative (x / c).
Proof. unfold nonnegative. rewrite FloatAxioms.div_spec. intros ->. apply SFdiv_nonneg_r. Qed.

Lemma of_uint63_nonnegative n : nonnegative (of_uint63 n).
Proof.
  unfold nonnegative. rewrite FloatAxioms.of_uint63_spec. apply binary_normalize_nonneg.
  apply Uint63.to_Z_bounded.
Qed.

(** Above a positive number there are positive numbers only. *)
Lemma above_nonnegative c m e x :
  Prim2SF c = S754_finite false m e → (c <? x)%float = true → nonnegative x.
Proof.
  intros Hc (_ & Hx & Hlt)%ltb_lexLt. apply is_nan_false in Hx.
  unfold nonnegative. rewrite Hc in Hlt. unfold notNaN in Hx.
  destruct (Prim2SF x) as [[]|[]| |[] mx ex]; simpl in *; try done;
    unfold lexLt in Hlt; simpl in Hlt; lia.
Qed.

End FloatOrder.

(** ** Properties of the RAID engine *)

Module RaidSpec.
Import Drivers Raid.

(** *** Slices *)

Lemma slice_length {A} (data : list A) lo hi :
  hi ≤ length data → length (slice data lo hi) = hi - lo.
Proof. intros H. unfold slice. rewrite length_take, length_drop. lia. Qed.

Lemma slice_from_zero {A} (data : list A) hi : slice data 0 hi = take hi data.
Proof. unfold slice. by rewrite Nat.sub_0_r. Qed.

Lemma take_slice {A} (data : list A) lo hi :
  lo ≤ hi → take lo data ++ slice data lo hi = take hi data.
Proof.
  intros H. unfold slice.
  rewrite take_take_drop. f_equal. lia.
Qed.

Lemma ceilDiv_covers a b : 0 < b → a ≤ b * ceilDiv a b.
Proof.
  intros Hb. unfold ceilDiv.
  pose proof (Nat.div_mod_eq (a + b - 1) b) as E.
  pose proof (Nat.mod_upper_bound (a + b - 1) b ltac:(lia)). lia.
Qed.

(** *** Parity *)

Lemma maxLen_max_list (strips : list bytes) :
  maxLen strips = max_list (length <$> strips).
Proof.
  unfold maxLen.
  enough (G : ∀ m, foldl (fun m strip => if m <? length strip then length strip else m)
                         m strips = m `max` max_list (length <$> strips))
    by (rewrite G; apply Nat.max_0_l).
  induction strips as [|s strips IH]; intros m.
  - change (m = m `max` 0). lia.
  - change (foldl (fun m strip => if m <? length strip then length strip else m)
                  (if m <? length s then length s else m) strips
            = m `max` (length s `max` max_list (length <$> strips))).
    rewrite IH. generalize (max_list (length <$> strips)). intros k.
    destruct (Nat.ltb_spec m (length s)); lia.
Qed.

Section xor_into.
Variables parity strip : bytes.

Lemma xor_loop_length n : length (foldl (xorAt strip) parity (seq 0 n)) = length parity.
Proof.
  induction n as [|n IH]; [done|].
  rewrite seq_S, foldl_app. simpl. unfold xorAt at 1. by rewrite length_insert.
Qed.

Lemma xor_loop_lookup n i :
  n ≤ length parity →
  default 0%Z (foldl (xorAt strip) parity (seq 0 n) !! i) =
  if i <? n then Z.lxor (default 0%Z (parity !! i)) (default 0%Z (strip !! i))
  else default 0%Z (parity !! i).
Proof.
  induction n as [|n IH]; intros Hn; [done|].
  rewrite seq_S, foldl_app. simpl. unfold xorAt at 1.
  destruct (decide (i = n)) as [->|Hne].
  - rewrite list_lookup_insert_eq by (rewrite xor_loop_length; lia).
    simpl. rewrite IH by lia.
    rewrite (proj2 (Nat.ltb_ge n n)) by lia.
    by rewrite (proj2 (Nat.ltb_lt n (S n))) by lia.
  - rewrite list_lookup_insert_ne by done. rewrite IH by lia.
    destruct (Nat.ltb_spec i n), (Nat.ltb_spec i (S n)); try lia; done.
Qed.

End xor_into.

Lemma xorInto_length parity strip : length (xorInto parity strip) = length parity.
Proof. apply xor_loop_length. Qed.

Lemma xorInto_lookup parity strip i :
  length strip ≤ length parity →
  default 0%Z (xorInto parity strip !! i) =
  Z.lxor (default 0%Z (parity !! i)) (default 0%Z (strip !! i)).
Proof.
  intros H. unfold xorInto. rewrite xor_loop_lookup by done.
  destruct (Nat.ltb_spec i (length strip)) as [|Hge]; [done|].
  rewrite (lookup_ge_None_2 strip i) by done. simpl. by rewrite Z.lxor_0_r.
Qed.

Lemma xor_fold_length acc (strips : list bytes) :
  length (foldl xorInto acc strips) = length acc.
Proof.
  revert acc. induction strips as [|s strips IH]; intros acc; simpl; [done|].
  by rewrite IH, xorInto_length.
Qed.

Lemma xor_fold_lookup acc (strips : list bytes) i :
  Forall (fun s => length s ≤ length acc) strips →
  default 0%Z (foldl xorInto acc strips !! i) =
  Z.lxor (default 0%Z (acc !! i))
         (xorAll ((fun s => default 0%Z (s !! i)) <$> strips)).
Proof.
  revert acc. induction strips as [|s strips IH]; intros acc Hlen; simpl.
  - by rewrite Z.lxor_0_r.
  - inversion Hlen as [|? ? Hs Hrest]; subst.
    rewrite IH.
    + rewrite xorInto_lookup by done. by rewrite Z.lxor_assoc.
    + rewrite xorInto_length. done.
Qed.

(** Absent bytes count as zero: padding a strip with zeros does not change
    the XOR of the bytes that are there. *)
Lemma xorAll_padded (strips : list bytes) i :
  xorAll ((fun s => default 0%Z (s !! i)) <$> strips) = xorAll (omap (.!! i) strips).
Proof.
  unfold xorAll. induction strips as [|s strips IH]; [done|].
  rewrite fmap_cons. cbn [foldr omap list_omap]. rewrite IH.
  destruct (s !! i); [done|]. apply Z.lxor_0_l.
Qed.

Lemma calculateParity_length strips :
  length (calculateParity strips) = max_list (length <$> strips).
Proof.
  destruct strips as [|s strips]; [done|].
  unfold calculateParity. by rewrite xor_fold_length, length_replicate, maxLen_max_list.
Qed.

Lemma calculateParity_lookup strips i :
  i < max_list (length <$> strips) →
  calculateParity strips !! i = Some (xorAll (omap (.!! i) strips)).
Proof.
  intros Hi.
  assert (Hin : i < length (calculateParity strips))
    by (by rewrite calculateParity_length).
  destruct (lookup_lt_is_Some_2 _ _ Hin) as [b Hb]. rewrite Hb. f_equal.
  change b with (default 0%Z (Some b)). rewrite <- Hb.
  destruct strips as [|s strips]; [simpl in Hi; lia|].
  unfold calculateParity. rewrite xor_fold_lookup.
  - rewrite lookup_replicate_2 by (by rewrite maxLen_max_list).
    simpl default at 1. rewrite Z.lxor_0_l. apply xorAll_padded.
  - rewrite length_replicate, maxLen_max_list.
    apply Forall_forall. intros x Hx. apply max_list_elem_of_le.
    apply list_elem_of_fmap. eauto.
Qed.

(** *** Uploads *)

Lemma UploadChunk_Some d data storageID d' :
  UploadChunk d data storageID = Some d' →
  putFails d storageID = false ∧ blobs d' = <[storageID := data]> (blobs d) ∧
  putFails d' = putFails d ∧ getFails d' = getFails d.
Proof.
  unfold UploadChunk. destruct (putFails d storageID); [done|].
  intros [= <-]. done.
Qed.

Lemma UploadChunk_None d data storageID :
  UploadChunk d data storageID = None ↔ putFails d storageID = true.
Proof. unfold UploadChunk. destruct (putFails d storageID); naive_solver. Qed.

Lemma putFailsIn_insert ds n d d' r :
  ds !! n = Some d → putFails d' = putFails d →
  putFailsIn (<[n := d']> ds) r = putFailsIn ds r.
Proof.
  intros Hn Hf. unfold putFailsIn.
  destruct (decide (putDriver r = n)) as [->|Hne].
  - by rewrite lookup_insert_eq, Hn, Hf.
  - by rewrite lookup_insert_ne.
Qed.

(** The uploads never panic when every request names a driver of the map. *)
Lemma uploadAll_total ds reqs :
  Forall (fun r => is_Some (ds !! putDriver r)) reqs → is_Some (uploadAll ds reqs).
Proof.
  revert ds. induction reqs as [|r reqs IH]; intros ds Hall; simpl; [by eexists|].
  inversion Hall as [|? ? [d Hd] Hrest]; subst. rewrite Hd.
  destruct (UploadChunk d (putData r) (putID r)) as [d'|] eqn:Hup.
  - apply IH. eapply Forall_impl; [exact Hrest|]. intros r' [d0 Hd0]. simpl.
    destruct (decide (putDriver r' = putDriver r)) as [->|Hne].
    + rewrite lookup_insert_eq. by eexists.
    + rewrite lookup_insert_ne by done. by eexists.
  - destruct (IH ds Hrest) as [[ds' errs] ->]. by eexists.
Qed.

(** The error channel holds one entry per refused upload. *)
Lemma uploadAll_errors ds reqs ds' errCh :
  uploadAll ds reqs = Some (ds', errCh) →
  errCh = putDriver <$> filter (fun r => putFailsIn ds r = true) reqs.
Proof.
  revert ds ds' errCh. induction reqs as [|r reqs IH]; intros ds ds' errCh; simpl.
  - by intros [= <- <-].
  - destruct (ds !! putDriver r) as [d|] eqn:Hd; [|done].
    destruct (UploadChunk d (putData r) (putID r)) as [d'|] eqn:Hup.
    + intros Hrec. apply UploadChunk_Some in Hup as (Hok & _ & Hpf & _).
      rewrite filter_cons_False by (unfold putFailsIn; rewrite Hd, Hok; done).
      rewrite (IH _ _ _ Hrec). f_equal. apply list_filter_iff. intros r'.
      by rewrite (putFailsIn_insert ds _ d d').
    + destruct (uploadAll ds reqs) as [[ds1 errs1]|] eqn:Hrec; [|done].
      intros [= <- <-]. apply UploadChunk_None in Hup.
      rewrite filter_cons_True by (unfold putFailsIn; rewrite Hd; done).
      rewrite fmap_cons. f_equal. by apply (IH ds ds1).
Qed.

(** What a driver holds after the uploads; its failure switches are kept. *)
Lemma uploadAll_stored ds reqs ds' errCh name d :
  uploadAll ds reqs = Some (ds', errCh) → ds !! name = Some d →
  ∃ d', ds' !! name = Some d' ∧ putFails d' = putFails d ∧ getFails d' = getFails d ∧
        ∀ storageID, blobs d' !! storageID =
                     storedAfter (putFails d) name storageID (blobs d !! storageID) reqs.
Proof.
  revert ds ds' errCh d. induction reqs as [|r reqs IH]; intros ds ds' errCh d; simpl.
  - intros [= <- <-] Hd. exists d. done.
  - destruct (ds !! putDriver r) as [d0|] eqn:Hd0; [|done].
    destruct (UploadChunk d0 (putData r) (putID r)) as [d0'|] eqn:Hup.
    + intros Hrec Hd. apply UploadChunk_Some in Hup as (Hok & Hblobs & Hpf & Hgf).
      destruct (decide (putDriver r = name)) as [Heq|Hne].
      * subst name. rewrite Hd0 in Hd. simplify_eq.
        destruct (IH _ _ _ d0' Hrec) as (d' & Hd' & Hpf' & Hgf' & Hst);
          [by rewrite lookup_insert_eq|].
        exists d'. split; [done|]. split; [congruence|]. split; [congruence|].
        intros storageID. rewrite Hst, Hpf, Hblobs. unfold storedAfter. f_equal.
        destruct (decide (putID r = storageID)) as [<-|Hid].
        -- rewrite bool_decide_eq_true_2 by done. rewrite Hok. simpl.
           by rewrite lookup_insert_eq.
        -- rewrite bool_decide_eq_false_2 by naive_solver. simpl.
           by rewrite lookup_insert_ne.
      * destruct (IH _ _ _ d Hrec) as (d' & Hd' & Hpf' & Hgf' & Hst);
          [by rewrite lookup_insert_ne|].
        exists d'. repeat split; try done.
        intros storageID. rewrite Hst. unfold storedAfter. f_equal.
        by rewrite bool_decide_eq_false_2 by naive_solver.
    + destruct (uploadAll ds reqs) as [[ds1 errs1]|] eqn:Hrec; [|done].
      intros [= <- <-] Hd. apply UploadChunk_None in Hup.
      destruct (IH _ _ _ d Hrec Hd) as (d' & Hd' & Hpf' & Hgf' & Hst).
      exists d'. repeat split; try done.
      intros storageID. rewrite Hst. unfold storedAfter. f_equal.
      destruct (decide (putDriver r = name ∧ putID r = storageID)) as [[Hn Hi]|Hno].
      * subst name. rewrite Hd0 in Hd. simplify_eq.
        by rewrite Hup, andb_false_r.
      * by rewrite bool_decide_eq_false_2.
Qed.

(** Uploads to one place that all carry the same accepted data leave that
    data there. *)
Lemma storedAfter_agree fails name storageID old reqs data :
  fails storageID = false →
  (∀ r, r ∈ reqs → putDriver r = name → putID r = storageID → putData r = data) →
  (∃ r, r ∈ reqs ∧ putDriver r = name ∧ putID r = storageID) →
  storedAfter fails name storageID old reqs = Some data.
Proof.
  intros Hok. unfold storedAfter. revert old.
  induction reqs as [|r reqs IH] using rev_ind; intros old Hsame [r0 [Hin Hr0]].
  - by apply elem_of_nil in Hin.
  - rewrite foldl_app. simpl.
    destruct (decide (putDriver r = name ∧ putID r = storageID)) as [[Hn Hi]|Hno].
    + rewrite bool_decide_eq_true_2 by done. rewrite Hi, Hok. simpl. f_equal.
      apply Hsame; [|done..]. apply elem_of_app. right. by apply list_elem_of_singleton.
    + rewrite bool_decide_eq_false_2 by done. simpl. apply IH.
      * intros r' Hr'. apply Hsame. apply elem_of_app. by left.
      * exists r0. split; [|done]. apply elem_of_app in Hin as [?|Hin]; [done|].
        apply list_elem_of_singleton in Hin. subst r0. naive_solver.
Qed.

(** *** What writeRAID5Stripe stores *)

Lemma raid5ID_stripType fileID stripeIndex t1 t2 name1 name2 :
  raid5ID fileID stripeIndex t1 name1 = raid5ID fileID stripeIndex t2 name2 → t1 = t2.
Proof.
  unfold raid5ID. intros H.
  do 4 apply (inj (String.app _)) in H.
  destruct t1, t2; simpl in H; done.
Qed.

Lemma raid5Strip_parity dataStrips parityStrip p i stripData :
  raid5Strip dataStrips parityStrip p i = (stripData, ParityStrip) →
  i = p ∧ stripData = parityStrip.
Proof.
  unfold raid5Strip. destruct (Nat.eqb_spec i p); [|done]. by intros [= <-].
Qed.

Lemma raid5Strip_at_parity dataStrips parityStrip p :
  raid5Strip dataStrips parityStrip p p = (parityStrip, ParityStrip).
Proof. unfold raid5Strip. by rewrite Nat.eqb_refl. Qed.

(** The uploads of a fan-out, read off its goroutines one by one. *)
Lemma tasks_elem {A} (f : nat → option (option A)) n (tasks : list (option A)) r :
  mapM f (seq 0 n) = Some tasks → r ∈ omap id tasks →
  ∃ i, i < n ∧ f i = Some (Some r).
Proof.
  intros Hm Hr. apply mapM_Some in Hm.
  apply list_elem_of_omap in Hr as (t & Ht & Hid). simpl in Hid. subst t.
  apply list_elem_of_lookup in Ht as [i Hi].
  destruct (Forall2_lookup_r _ _ _ _ _ Hm Hi) as (j & Hj & Hf).
  apply lookup_seq in Hj as [-> ?]. eauto.
Qed.

Lemma tasks_at {A} (f : nat → option (option A)) n (tasks : list (option A)) i r :
  mapM f (seq 0 n) = Some tasks → i < n → f i = Some (Some r) → r ∈ omap id tasks.
Proof.
  intros Hm Hi Hf. apply mapM_Some in Hm.
  assert (Hs : seq 0 n !! i = Some i) by (by apply lookup_seq).
  destruct (Forall2_lookup_l _ _ _ _ _ Hm Hs) as (t & Ht & Hft).
  rewrite Hf in Hft. injection Hft as <-.
  apply list_elem_of_omap. exists (Some r). split; [|done].
  apply list_elem_of_lookup. eauto.
Qed.

Lemma splitDataForRAID5_width rc data dataStrips :
  splitDataForRAID5 rc data = Some dataStrips → 2 ≤ stripeWidth rc.
Proof. unfold splitDataForRAID5. destruct (stripeWidth rc) as [|[|n]]; [done..|lia]. Qed.

(** The last data strip takes what the others leave: of a payload that is
    not empty it is not empty, and neither is the parity strip. *)
Lemma splitDataForRAID5_last rc data dataStrips :
  splitDataForRAID5 rc data = Some dataStrips →
  dataStrips !! (stripeWidth rc - 2)
  = Some (slice data ((stripeWidth rc - 2) * (length data / (stripeWidth rc - 1)))
                (length data)).
Proof.
  unfold splitDataForRAID5. destruct (stripeWidth rc) as [|[|n]] eqn:Hw; [done..|].
  intros H. apply (inj Some) in H. rewrite <- H, list_lookup_fmap.
  replace (S (S n) - 2) with n by lia. replace (S (S n) - 1) with (S n) by lia.
  rewrite lookup_seq_lt by lia. cbn [fmap option_fmap option_map plus].
  by rewrite Nat.eqb_refl.
Qed.

Lemma parity_nonempty rc data dataStrips :
  splitDataForRAID5 rc data = Some dataStrips → data ≠ [] →
  calculateParity dataStrips ≠ [].
Proof.
  intros Hsplit Hdata Hnil.
  pose proof (splitDataForRAID5_width _ _ _ Hsplit) as Hwidth.
  pose proof (splitDataForRAID5_last _ _ _ Hsplit) as Hlast.
  assert (Hlen : length (calculateParity dataStrips) = 0) by (by rewrite Hnil).
  rewrite calculateParity_length in Hlen.
  assert (Hle : length (slice data ((stripeWidth rc - 2) * (length data / (stripeWidth rc - 1)))
                              (length data)) ≤ max_list (length <$> dataStrips)).
  { apply max_list_elem_of_le, list_elem_of_fmap.
    eexists. split; [reflexivity|]. eapply list_elem_of_lookup_2, Hlast. }
  rewrite Hlen, slice_length in Hle by done.
  assert (0 < length data) by (destruct data; [done|simpl; lia]).
  set (w := stripeWidth rc - 1) in *.
  assert (Hw : stripeWidth rc - 2 = w - 1) by lia. rewrite Hw in Hle.
  assert (0 < w) by lia.
  pose proof (Nat.div_mod_eq (length data) w) as Hdiv.
  pose proof (Nat.mod_upper_bound (length data) w ltac:(lia)).
  destruct (length data / w) as [|q] eqn:Hq; [lia|]. nia.
Qed.

Lemma raid5_parity_stored rc ord stripeIndex data fileID dataStrips rc' res name d :
  splitDataForRAID5 rc data = Some dataStrips →
  writeRAID5Stripe rc ord stripeIndex data fileID = (rc', res) → res ≠ Panic →
  data ≠ [] →
  selectDriverByIndex rc (ord (stripeIndex mod stripeWidth rc))
                      (stripeIndex mod stripeWidth rc) = Some name →
  drivers rc !! name = Some d →
  putFails d (raid5ID fileID stripeIndex ParityStrip name) = false →
  ∃ d', drivers rc' !! name = Some d' ∧
        blobs d' !! raid5ID fileID stripeIndex ParityStrip name
        = Some (calculateParity dataStrips).
Proof.
  intros Hsplit Hw Hres Hdata Hsel Hd Hok.
  pose proof (parity_nonempty _ _ _ Hsplit Hdata) as Hne.
  pose proof (splitDataForRAID5_width _ _ _ Hsplit) as Hwidth.
  unfold writeRAID5Stripe in Hw. rewrite Hsplit in Hw.
  destruct (mapM _ _) as [tasks|] eqn:Htasks; [|naive_solver].
  destruct (uploadAll _ _) as [[ds errCh]|] eqn:Hup; [|naive_solver].
  assert (rc' = withDrivers rc ds) as -> by (destruct (1 <? length errCh); naive_solver).
  destruct (uploadAll_stored _ _ _ _ _ _ Hup Hd) as (d' & Hd' & _ & _ & Hst).
  exists d'. split; [done|]. rewrite Hst.
  set (p := stripeIndex mod stripeWidth rc) in *.
  apply storedAfter_agree; [done|..].
  - intros r Hr Hname Hid.
    destruct (tasks_elem _ _ _ _ Htasks Hr) as (i & Hi & Hput).
    unfold raid5Put in Hput. fold p in Hput.
    destruct (raid5Strip dataStrips (calculateParity dataStrips) p i)
      as [stripData ty] eqn:Hstrip.
    destruct (length stripData =? 0); [done|].
    destruct (selectDriverByIndex rc (ord i) i) as [dn|]; [|done].
    simpl in Hput. injection Hput as <-. simpl in *. subst dn.
    apply raid5ID_stripType in Hid. subst ty.
    by apply raid5Strip_parity in Hstrip as [_ ->].
  - exists (mkPut name (raid5ID fileID stripeIndex ParityStrip name)
                  (calculateParity dataStrips)).
    split; [|done].
    apply (tasks_at _ _ _ p _ Htasks).
    + apply Nat.mod_upper_bound. lia.
    + unfold raid5Put. fold p. rewrite raid5Strip_at_parity.
      destruct (calculateParity dataStrips) eqn:E; [done|]. simpl.
      rewrite Hsel. done.
Qed.

(** C3. For every RAID 5 stripe the parity strip that [writeRAID5Stripe]
    computes has the length of the longest data strip, and its i-th byte is
    the XOR of the i-th bytes of all data strips that have one (shorter
    strips count as padded with zeros).  It is the payload of the strip at
    position [stripeIndex mod stripeWidth], and for a stripe that is not
    empty, when its upload is accepted, it is what the chosen driver holds
    under the parity storage id after the write. *)
Theorem raid5_parity_is_xor rc ord stripeIndex data fileID dataStrips :
  splitDataForRAID5 rc data = Some dataStrips →
  let parity := calculateParity dataStrips in
  let p := stripeIndex mod stripeWidth rc in
  length parity = max_list (length <$> dataStrips) ∧
  (∀ i, i < length parity → parity !! i = Some (xorAll (omap (.!! i) dataStrips))) ∧
  raid5Strip dataStrips parity p p = (parity, ParityStrip) ∧
  (∀ rc' res name d,
     writeRAID5Stripe rc ord stripeIndex data fileID = (rc', res) → res ≠ Panic →
     data ≠ [] →
     selectDriverByIndex rc (ord p) p = Some name →
     drivers rc !! name = Some d →
     putFails d (raid5ID fileID stripeIndex ParityStrip name) = false →
     ∃ d', drivers rc' !! name = Some d' ∧
           blobs d' !! raid5ID fileID stripeIndex ParityStrip name = Some parity).
Proof.
  intros Hsplit parity p. repeat split.
  - apply calculateParity_length.
  - intros i Hi. apply calculateParity_lookup.
    by rewrite <- calculateParity_length.
  - apply raid5Strip_at_parity.
  - intros rc' res name d Hw Hres Hne Hsel Hd Hok.
    by eapply raid5_parity_stored.
Qed.

(** *** The chunks of a RAID 0 stripe *)

Lemma raid0Chunks_omap width data :
  raid0Chunks width data = omap (raid0Chunk width data) (seq 0 width).
Proof. done. Qed.

Lemma raid0Range_Some dataLen stripSize i start end_ :
  raid0Range dataLen stripSize i = Some (start, end_) ↔
  i * stripSize < dataLen ∧ start = i * stripSize ∧
  end_ = (i * stripSize + stripSize) `min` dataLen.
Proof.
  unfold raid0Range.
  destruct (Nat.leb_spec dataLen (i * stripSize)),
           (Nat.ltb_spec dataLen (i * stripSize + stripSize));
    split; try (intros [= <- <-]); try (intros (? & -> & ->)); try f_equal; try lia;
    repeat split; try f_equal; lia.
Qed.

Lemma raid0Range_None dataLen stripSize i :
  raid0Range dataLen stripSize i = None ↔ dataLen ≤ i * stripSize.
Proof.
  unfold raid0Range. destruct (Nat.leb_spec dataLen (i * stripSize)); split;
    try done; lia.
Qed.

Lemma raid0Chunk_Some width data i c :
  raid0Chunk width data i = Some c ↔
  i * ceilDiv (length data) width < length data ∧
  c = slice data (i * ceilDiv (length data) width)
            ((i * ceilDiv (length data) width + ceilDiv (length data) width)
               `min` length data).
Proof.
  unfold raid0Chunk.
  destruct (raid0Range _ _ i) as [[start end_]|] eqn:E.
  - apply raid0Range_Some in E as (? & -> & ->). naive_solver.
  - apply raid0Range_None in E. split; [done|]. lia.
Qed.

Lemma raid0Chunk_closed width data i :
  raid0Chunk width data i = None → raid0Chunk width data (S i) = None.
Proof.
  unfold raid0Chunk.
  destruct (raid0Range _ _ i) as [[??]|] eqn:E; [done|]. intros _.
  apply raid0Range_None in E.
  destruct (raid0Range _ _ (S i)) as [[??]|] eqn:E'; [|done].
  apply raid0Range_Some in E' as (? & _). lia.
Qed.

(** Chunks up to strip [w] make up the first [w * stripSize] bytes. *)
Lemma raid0_chunks_concat width data w :
  concat (omap (raid0Chunk width data) (seq 0 w))
  = take (w * ceilDiv (length data) width) data.
Proof.
  induction w as [|w IH]; [done|].
  rewrite seq_S, omap_app, concat_app, IH. simpl.
  destruct (raid0Chunk width data w) as [c|] eqn:E; simpl.
  - apply raid0Chunk_Some in E as [Hlt ->]. rewrite app_nil_r.
    rewrite take_slice by lia.
    destruct (Nat.min_spec (w * ceilDiv (length data) width + ceilDiv (length data) width)
                           (length data)) as [[? ->]|[? ->]].
    + f_equal. lia.
    + rewrite !take_ge by lia. done.
  - rewrite app_nil_r.
    assert (length data ≤ w * ceilDiv (length data) width).
    { unfold raid0Chunk in E.
      destruct (raid0Range _ _ w) as [[??]|] eqn:E'; [done|].
      by apply raid0Range_None in E'. }
    rewrite !take_ge by lia. done.
Qed.

(** Enumerating a partial function that, once undefined, stays undefined. *)
Section prefix_closed.
Context {A : Type} (f : nat → option A).
Hypothesis closed : ∀ j, f j = None → f (S j) = None.

Lemma closed_upwards j k : j ≤ k → f j = None → f k = None.
Proof. induction 1; auto. Qed.

Lemma omap_seq_length w :
  (∀ j, j < w → is_Some (f j)) → length (omap f (seq 0 w)) = w.
Proof.
  induction w as [|w IH]; intros Hdef; [done|].
  rewrite seq_S, omap_app, length_app, IH by (intros; apply Hdef; lia).
  simpl. destruct (Hdef w ltac:(lia)) as [c ->]. simpl. lia.
Qed.

Lemma omap_seq_lookup w i :
  omap f (seq 0 w) !! i = if i <? w then f i else None.
Proof.
  revert i. induction w as [|w IH]; intros i; [done|].
  rewrite seq_S, omap_app. simpl.
  destruct (f w) as [c|] eqn:Hw.
  - assert (Hlen : length (omap f (seq 0 w)) = w).
    { apply omap_seq_length. intros j Hj.
      destruct (f j) eqn:Ej; [by eexists|].
      apply (closed_upwards j w) in Ej; [congruence|lia]. }
    destruct (Nat.ltb_spec i (S w)) as [Hi|Hi].
    + destruct (decide (i = w)) as [->|Hne].
      * rewrite lookup_app_r by lia. rewrite Hlen, Nat.sub_diag. by rewrite Hw.
      * rewrite lookup_app_l by lia. rewrite IH.
        by rewrite (proj2 (Nat.ltb_lt i w)) by lia.
    + apply lookup_ge_None_2. rewrite length_app, Hlen. simpl. lia.
  - rewrite app_nil_r, IH.
    destruct (Nat.ltb_spec i w), (Nat.ltb_spec i (S w)); try lia; try done.
    assert (i = w) as -> by lia. done.
Qed.

End prefix_closed.

Lemma ceilDiv_pos a b : 0 < a → 0 < b → 0 < ceilDiv a b.
Proof.
  intros Ha Hb. unfold ceilDiv.
  apply Nat.div_str_pos. lia.
Qed.

Lemma raid0Chunks_lookup width data i c :
  raid0Chunks width data !! i = Some c ↔ i < width ∧ raid0Chunk width data i = Some c.
Proof.
  rewrite raid0Chunks_omap, omap_seq_lookup by apply raid0Chunk_closed.
  destruct (Nat.ltb_spec i width); naive_solver lia.
Qed.

Lemma raid0Chunks_count width data : length (raid0Chunks width data) ≤ width.
Proof.
  apply lookup_ge_None.
  rewrite raid0Chunks_omap, omap_seq_lookup by apply raid0Chunk_closed.
  by rewrite Nat.ltb_irrefl.
Qed.

(** The payloads of the uploads of [writeRAID0Stripe] are the chunks. *)
Lemma raid0Put_data rc ord stripeIndex data fileID i t :
  raid0Put rc ord stripeIndex data fileID i = Some t →
  putData <$> t = raid0Chunk (stripeWidth rc) data i.
Proof.
  unfold raid0Put, raid0Chunk.
  destruct (raid0Range _ _ i) as [[start end_]|]; [|by intros [= <-]].
  destruct (selectDriverForStrip _ _ _ _); simpl; [|done]. by intros [= <-].
Qed.

Lemma raid0_tasks_data rc ord stripeIndex data fileID (tasks : list (option put)) :
  mapM (raid0Put rc ord stripeIndex data fileID) (seq 0 (stripeWidth rc)) = Some tasks →
  putData <$> omap id tasks = raid0Chunks (stripeWidth rc) data.
Proof.
  intros Hm. apply mapM_Some in Hm. rewrite raid0Chunks_omap.
  induction Hm as [|i t is_ ts Hput _ IH]; [done|].
  apply raid0Put_data in Hput. cbn [omap list_omap].
  rewrite <- Hput, <- IH. by destruct t.
Qed.

(** C6, as the code has it.  [writeRAID0Stripe] cuts a stripe payload of
    [n] bytes for [width > 0] drivers into consecutive chunks of
    [ceil(n / width)] bytes: every chunk but the last has exactly that size,
    the last one holds what is left (at least one byte, never more than the
    others), strips that would start beyond the payload get no chunk, the
    chunks concatenated are the payload, and they are the payloads of the
    uploads the function issues. *)
Theorem raid0_chunk_layout width data :
  0 < width →
  let n := length data in
  let stripSize := ceilDiv n width in
  let chunks := raid0Chunks width data in
  concat chunks = data ∧ length chunks ≤ width ∧
  (∀ i c, chunks !! i = Some c →
     c = slice data (i * stripSize) ((i * stripSize + stripSize) `min` n) ∧
     0 < length c ≤ stripSize ∧
     (S i < length chunks → length c = stripSize)) ∧
  (∀ rc ord stripeIndex fileID (tasks : list (option put)),
     stripeWidth rc = width →
     mapM (raid0Put rc ord stripeIndex data fileID) (seq 0 width) = Some tasks →
     putData <$> omap id tasks = chunks).
Proof.
  intros Hw n stripSize chunks. split; [|split; [|split]].
  - subst chunks. rewrite raid0Chunks_omap, raid0_chunks_concat.
    apply take_ge. fold n stripSize.
    pose proof (ceilDiv_covers n width Hw). fold stripSize in H. lia.
  - apply raid0Chunks_count.
  - intros i c Hc. apply raid0Chunks_lookup in Hc as [Hi Hc].
    apply raid0Chunk_Some in Hc as [Hlt Hc]. fold n stripSize in Hlt, Hc.
    split; [done|].
    assert (0 < stripSize) by (apply ceilDiv_pos; lia).
    assert (Hlen : length c = (i * stripSize + stripSize) `min` n - i * stripSize).
    { rewrite Hc. apply slice_length. fold n. lia. }
    split; [lia|]. intros Hnext.
    destruct (lookup_lt_is_Some_2 _ _ Hnext) as [c' Hc'].
    apply raid0Chunks_lookup in Hc' as [_ Hc'].
    apply raid0Chunk_Some in Hc' as [Hlt' _]. fold n stripSize in Hlt'.
    simpl in Hlt'. lia.
  - intros rc ord stripeIndex fileID tasks <- Htasks.
    by apply raid0_tasks_data in Htasks.
Qed.

Lemma raid0_chunk_layout_witness :
  concat (raid0Chunks 5 (replicate 4096 171%Z)) = replicate 4096 171%Z ∧
  length <$> raid0Chunks 5 (replicate 4096 171%Z) = [820; 820; 820; 820; 816].
Proof.
  split.
  - apply (raid0_chunk_layout 5 (replicate 4096 171%Z)). lia.
  - vm_compute. reflexivity.
Defined.

(** The claim as worded fails at the scenario of section 8: 5 drivers and a
    stripe of 4096 bytes of 0xAB.  The uploads of [writeRAID0Stripe] carry
    820, 820, 820, 820 and 816 bytes: not five chunks of 820 bytes, and not
    equal chunks with the last one absorbing the remainder either. *)
Lemma raid0_last_chunk_is_short :
  let rc := controller RAID0 ["d0"; "d1"; "d2"; "d3"; "d4"] 4096 in
  let ord := fun _ : nat => ["d0"; "d1"; "d2"; "d3"; "d4"] in
  let data := replicate 4096 171%Z in
  (omap id <$> mapM (raid0Put rc ord 0 data "f") (seq 0 5))
    ≫= (fun reqs => Some (length <$> (putData <$> reqs)))
    = Some [820; 820; 820; 820; 816] ∧
  snd (writeRAID0Stripe rc ord 0 data "f") = Done () ∧
  [820; 820; 820; 820; 816] ≠ [820; 820; 820; 820; 820] ∧
  [820; 820; 820; 820; 816] ≠ specChunkSizes 5 4096.
Proof. vm_compute. repeat split; discriminate. Qed.

(** *** The success rule of RAID 1 *)

Lemma rangeOf_elem {A} (m : gmap string A) names name :
  rangeOf m names → name ∈ names ↔ is_Some (m !! name).
Proof.
  intros [_ Hdom]. rewrite <- elem_of_dom, <- Hdom. by rewrite elem_of_list_to_set.
Qed.

Lemma rangeOf_length {A} (m : gmap string A) names :
  rangeOf m names → length names = size m.
Proof.
  intros [Hnd Hdom]. rewrite <- size_dom, <- Hdom. by rewrite size_list_to_set.
Qed.

Lemma filter_all_length {A} (P : A → Prop) `{!∀ x, Decision (P x)} (l : list A) :
  length (filter P l) ≤ length l ∧ (length (filter P l) = length l ↔ Forall P l).
Proof.
  induction l as [|x l [IHle IH]]; [by split|].
  destruct (decide (P x)) as [Hx|Hx].
  - rewrite filter_cons_True by done. simpl. split; [lia|].
    rewrite Forall_cons. split; [intros; split; [done|apply IH; lia]|].
    intros [_ Hl]. apply IH in Hl. lia.
  - rewrite filter_cons_False by done. simpl. split; [lia|].
    rewrite Forall_cons. split; [lia|]. naive_solver.
Qed.

(** C4. A RAID 1 stripe write returns nil exactly when at least one of the
    uploads, one per driver, is accepted, and returns its error exactly when
    every upload fails. *)
Theorem raid1_write_succeeds_iff rc names stripeIndex data fileID :
  rangeOf (drivers rc) names →
  let res := snd (writeRAID1Stripe rc names stripeIndex data fileID) in
  let accepted name :=
    ∃ d, drivers rc !! name = Some d ∧
         is_Some (UploadChunk d data (raid1ID fileID stripeIndex name)) in
  (res = Done () ↔ ∃ name, name ∈ names ∧ accepted name) ∧
  (res = Fail ErrAllDriversFailed ↔ ∀ name, name ∈ names → ¬ accepted name).
Proof.
  intros Hrange res accepted. subst res. unfold writeRAID1Stripe.
  set (reqs := (fun name => mkPut name (raid1ID fileID stripeIndex name) data) <$> names).
  assert (Htotal : is_Some (uploadAll (drivers rc) reqs)).
  { apply uploadAll_total, Forall_forall. intros r Hr.
    apply list_elem_of_fmap in Hr as (name & -> & Hname). simpl.
    by apply (rangeOf_elem _ _ _ Hrange). }
  destruct Htotal as [[ds errCh] Hup]. rewrite Hup.
  apply uploadAll_errors in Hup. rewrite <- (rangeOf_length _ _ Hrange).
  assert (Hlen : length errCh = length (filter (fun r => putFailsIn (drivers rc) r = true) reqs))
    by (by rewrite Hup, length_fmap).
  assert (Hreqs : length reqs = length names) by (unfold reqs; by rewrite length_fmap).
  pose proof (filter_all_length (fun r => putFailsIn (drivers rc) r = true) reqs)
    as [Hle Hall].
  assert (Hfail : Forall (fun r => putFailsIn (drivers rc) r = true) reqs ↔
                  ∀ name, name ∈ names → ¬ accepted name).
  { rewrite Forall_forall. split.
    - intros Hf name Hname (d & Hd & Hacc).
      assert (Hin : mkPut name (raid1ID fileID stripeIndex name) data ∈ reqs)
        by (apply list_elem_of_fmap; eauto).
      apply Hf in Hin. unfold putFailsIn in Hin. simpl in Hin. rewrite Hd in Hin.
      apply (UploadChunk_None d data) in Hin.
      rewrite Hin in Hacc. by destruct Hacc.
    - intros Hno r Hr. apply list_elem_of_fmap in Hr as (name & -> & Hname).
      unfold putFailsIn. simpl.
      destruct (proj1 (rangeOf_elem _ _ name Hrange) Hname) as [d Hd]. rewrite Hd.
      apply (UploadChunk_None d data). 
      destruct (UploadChunk d data _) eqn:E; [|done].
      exfalso. apply (Hno name Hname). exists d. split; [done|]. by rewrite E. }
  destruct (Nat.eqb_spec (length names - length errCh) 0) as [Hz|Hnz]; simpl.
  - assert (Forall (fun r => putFailsIn (drivers rc) r = true) reqs)
      by (apply Hall; lia).
    split; [|naive_solver].
    split; [done|]. intros (name & Hname & Hacc). exfalso.
    by apply (proj1 Hfail H name Hname).
  - assert (Hsome : ¬ Forall (fun r => putFailsIn (drivers rc) r = true) reqs)
      by (rewrite <- Hall; lia).
    split; [|split; [done|]; intros Hno; by apply Hfail in Hno].
    split; [|done]. intros _.
    apply not_Forall_Exists in Hsome; [|apply _].
    apply Exists_exists in Hsome as (r & Hr & Hnot).
    apply list_elem_of_fmap in Hr as (name & -> & Hname).
    exists name. split; [done|].
    destruct (proj1 (rangeOf_elem _ _ name Hrange) Hname) as [d Hd].
    exists d. split; [done|].
    unfold putFailsIn in Hnot. simpl in Hnot. rewrite Hd in Hnot.
    destruct (UploadChunk d data _) eqn:E; [by eexists|].
    apply UploadChunk_None in E. done.
Qed.

(** *** The success rule of RAID 10 *)

(** [writeRAID10Stripe] compares the number of failed uploads with the
    number of pairs, whichever pairs the failures fall into. *)
Lemma writeRAID10Stripe_rule rc names stripeIndex data fileID reqs :
  raid10Puts rc names stripeIndex data fileID = Some reqs →
  Forall (fun r => is_Some (drivers rc !! putDriver r)) reqs →
  snd (writeRAID10Stripe rc names stripeIndex data fileID)
  = if length (createMirrorPairs rc names)
         <? length (filter (fun r => putFailsIn (drivers rc) r = true) reqs)
    then Fail ErrRAID10WriteFailures else Done ().
Proof.
  intros Hreqs Hall. unfold writeRAID10Stripe. rewrite Hreqs.
  destruct (uploadAll_total _ _ Hall) as [[ds errCh] Hup]. rewrite Hup.
  apply uploadAll_errors in Hup. subst errCh. rewrite length_fmap.
  by destruct (_ <? _).
Qed.

(** C5, the code at the failing input.  The controller is one
    [NewRAIDController] builds; the traversal order pairs d0 with d1 and d2
    with d3; both uploads of the first pair fail and both of the second
    succeed.  Two failures are not more than two pairs, so the write returns
    nil although neither member of the first pair holds its chunk. *)
Theorem raid10_write_accepts_lost_pair :
  let names := ["d0"; "d1"; "d2"; "d3"] in
  let data := Z.of_nat <$> seq 1 16 in
  let after := fst (writeRAID10Stripe deadPair names 0 data "f") in
  NewRAIDController RAID10 (drivers deadPair) 16 = Done deadPair ∧
  rangeOf (drivers deadPair) names ∧
  createMirrorPairs deadPair names = [("d0", "d1"); ("d2", "d3")] ∧
  (putDriver <$> filter (fun r => putFailsIn (drivers deadPair) r = true)
                        (default [] (raid10Puts deadPair names 0 data "f")))
    = ["d0"; "d1"] ∧
  snd (writeRAID10Stripe deadPair names 0 data "f") = Done () ∧
  (fun name => download (drivers after) name (raid10ID "f" 0 0 name)) <$> ["d0"; "d1"]
    = [Some None; Some None] ∧
  (fun name => download (drivers after) name (raid10ID "f" 0 1 name)) <$> ["d2"; "d3"]
    = [Some (Some (Z.of_nat <$> seq 9 8)); Some (Some (Z.of_nat <$> seq 9 8))].
Proof.
  intros names data after. split; [vm_compute; reflexivity|].
  split; [compute_done|].
  vm_compute. repeat split.
Qed.

(** With the stripe read of the spec the lost chunk makes the read fail. *)
Lemma raid10_lost_pair_is_unreadable :
  let names := ["d0"; "d1"; "d2"; "d3"] in
  let after := fst (writeRAID10Stripe deadPair names 0 (Z.of_nat <$> seq 1 16) "f") in
  readRAID10Stripe after names 0 "f" = Fail ErrAllMirrorsLost.
Proof. vm_compute. reflexivity. Qed.

(** *** Reading a RAID 5 stripe with one block lost *)

Lemma failedOf_nil : failedOf [] = [].
Proof. done. Qed.

(** Whenever exactly one block fails to download and it is not the parity
    block, [readRAID5Stripe] returns the error of [recoverRAID5Stripe]. *)
Lemma readRAID5Stripe_lost_data_block rc ord stripeIndex fileID strips failedIndex :
  mapM (raid5Get rc ord stripeIndex fileID) (seq 0 (stripeWidth rc)) = Some strips →
  failedOf strips = [failedIndex] →
  failedIndex ≠ stripeIndex mod stripeWidth rc →
  readRAID5Stripe rc ord stripeIndex fileID = Fail ErrRecoveryNotImplemented.
Proof.
  intros Hm Hfailed Hdata. unfold readRAID5Stripe. rewrite Hm, Hfailed.
  apply length_mapM in Hm. rewrite length_seq in Hm.
  unfold recoverRAID5Stripe. rewrite <- Hm.
  destruct (stripeWidth rc) as [|w] eqn:Hw.
  - destruct strips; [done|]. simpl in Hm. lia.
  - by rewrite (proj2 (Nat.eqb_neq _ _) Hdata).
Qed.

(** C2, the code at the failing input.  After the write of scenario 3 the
    stripe reads back intact, d0 holding the parity and d1, d2 the data
    blocks.  With the downloads of d1 failing, the one lost block is the
    first data block, the parity and the other data block are at hand, and
    [readRAID5Stripe] returns an error instead of the payload. *)
Theorem raid5_read_does_not_recover :
  let ord := fun _ : nat => ["d0"; "d1"; "d2"] in
  let degraded := withDrivers scenario3 (alter failGets "d1" (drivers scenario3)) in
  readRAID5Stripe scenario3 ord 0 "f" = Done (Z.of_nat <$> seq 1 8) ∧
  mapM (raid5Get degraded ord 0 "f") (seq 0 3)
    = Some [Some (calculateParity [[1; 2; 3; 4]; [5; 6; 7; 8]]%Z); None;
            Some [5; 6; 7; 8]%Z] ∧
  readRAID5Stripe degraded ord 0 "f" = Fail ErrRecoveryNotImplemented.
Proof. vm_compute. repeat split. Qed.

(** *** Writing a file and reading it back *)

(** C1, the code at failing inputs.  Four healthy drivers, stripe size 4,
    every [range] in the same order, every upload and download succeeding,
    at the levels 0 and 5 in turn.  A payload of 8 bytes (two stripes) comes
    back intact.  A payload of 12 bytes (three stripes) is written in full
    and read back as its first 8 bytes only; a payload of 4 bytes (one
    stripe) is written and its read fails at the stripe 1 that was never
    written; an empty payload fails at stripe 0. *)
Theorem round_trip_only_for_two_stripes :
  let names := ["d0"; "d1"; "d2"; "d3"] in
  let trip lvl n := roundTrip (controller lvl names 4) (steady names) (steady names)
                              "p" (Z.of_nat <$> seq 1 n) in
  (fun lvl => NewRAIDController lvl (fleet names healthy) 4) <$> stripedLevels
    = (fun lvl => Done (controller lvl names 4)) <$> stripedLevels ∧
  (fun lvl => trip lvl 8) <$> stripedLevels
    = replicate 2 (Done (Z.of_nat <$> seq 1 8)) ∧
  (fun lvl => trip lvl 12) <$> stripedLevels
    = replicate 2 (Done (Z.of_nat <$> seq 1 8)) ∧
  (fun lvl => trip lvl 4) <$> stripedLevels
    = [Fail (ErrReadStripe 1 ErrStripRead); Fail (ErrReadStripe 1 ErrMultipleLost)] ∧
  (fun lvl => trip lvl 0) <$> stripedLevels
    = [Fail (ErrReadStripe 0 ErrStripRead); Fail (ErrReadStripe 0 ErrMultipleLost)].
Proof. vm_compute. repeat split. Qed.

(** The same at the levels 1 and 10, whose stripe reads follow the spec:
    the constant stripe count of [ReadFile] truncates and fails there too. *)
Lemma round_trip_mirrored_levels :
  let names := ["d0"; "d1"; "d2"; "d3"] in
  let trip lvl n := roundTrip (controller lvl names 4) (steady names) (steady names)
                              "p" (Z.of_nat <$> seq 1 n) in
  (fun lvl => trip lvl 8) <$> mirroredLevels
    = replicate 2 (Done (Z.of_nat <$> seq 1 8)) ∧
  (fun lvl => trip lvl 12) <$> mirroredLevels
    = replicate 2 (Done (Z.of_nat <$> seq 1 8)) ∧
  (fun lvl => trip lvl 4) <$> mirroredLevels
    = replicate 2 (Fail (ErrReadStripe 1 ErrAllMirrorsLost)).
Proof. vm_compute. repeat split. Qed.

(** *** Which driver holds a block *)

Lemma rotate_rangeOf {A} (m : gmap string A) names k :
  rangeOf m names → rangeOf m (rotate k names).
Proof.
  intros [Hnd Hdom].
  assert (Hperm : rotate k names ≡ₚ names).
  { unfold rotate. rewrite Permutation_app_comm. by rewrite take_drop. }
  split; [by rewrite Hperm|]. by rewrite Hperm.
Qed.

Lemma rotate_one_moves (names : list string) i :
  NoDup names → 2 ≤ length names → i < length names →
  rotate 1 names !! i ≠ names !! i.
Proof.
  intros Hnd Hlen Hi Heq.
  rewrite lookup_rotate_r in Heq by done.
  destruct (lookup_lt_is_Some_2 names i Hi) as [x Hx]. rewrite Hx in Heq.
  pose proof (NoDup_lookup _ _ _ _ Hnd Heq Hx) as Hsame.
  unfold rotate_nat_add in Hsame.
  destruct (decide (S i = length names)) as [Hlast|Hmid].
  - rewrite <- Hlast in Hsame.
    replace (Z.of_nat 1 + Z.of_nat i)%Z with (Z.of_nat (S i)) in Hsame by lia.
    rewrite Z.mod_same in Hsame by lia. simpl in Hsame. lia.
  - rewrite Z.mod_small in Hsame by lia. lia.
Qed.

(** For every controller with two drivers or more and every block, the
    traversal orders of two calls can make [selectDriverForStrip] name two
    different drivers; likewise [selectDriverByIndex]. *)
Lemma selectDriver_depends_on_order rc names stripeIndex stripIndex :
  rangeOf (drivers rc) names → 2 ≤ length names →
  ∃ names', rangeOf (drivers rc) names' ∧
    selectDriverForStrip rc names' stripeIndex stripIndex
      ≠ selectDriverForStrip rc names stripeIndex stripIndex ∧
    selectDriverByIndex rc names' stripIndex ≠ selectDriverByIndex rc names stripIndex.
Proof.
  intros Hrange Hlen. exists (rotate 1 names).
  split; [by apply rotate_rangeOf|].
  destruct Hrange as [Hnd _].
  unfold selectDriverForStrip, selectDriverByIndex. rewrite length_rotate.
  destruct (length names) as [|n] eqn:Hn; [lia|]. rewrite <- Hn.
  split.
  - apply rotate_one_moves; [done|lia|]. apply Nat.mod_upper_bound. lia.
  - destruct (Nat.leb_spec (length names) stripIndex).
    + apply rotate_one_moves; [done|lia|]. apply Nat.mod_upper_bound. lia.
    + apply rotate_one_moves; [done|lia|lia].
Qed.

(** C10, the code at the failing input.  One controller with the drivers a
    and b, one block (stripe 0, strip 0), two traversal orders that Go may
    take for the same map: the two calls name different drivers.  A stripe
    written under one order is then not found under the other, every driver
    working. *)
Theorem selectDriver_not_deterministic :
  let rc := controller RAID0 ["a"; "b"] 4 in
  let data := Z.of_nat <$> seq 1 8 in
  rangeOf (drivers rc) ["a"; "b"] ∧ rangeOf (drivers rc) ["b"; "a"] ∧
  selectDriverForStrip rc ["a"; "b"] 0 0 = Some "a" ∧
  selectDriverForStrip rc ["b"; "a"] 0 0 = Some "b" ∧
  selectDriverByIndex rc ["a"; "b"] 0 = Some "a" ∧
  selectDriverByIndex rc ["b"; "a"] 0 = Some "b" ∧
  roundTrip rc (steady ["a"; "b"]) (steady ["a"; "b"]) "p" data = Done data ∧
  roundTrip rc (steady ["a"; "b"]) (steady ["b"; "a"]) "p" data
    = Fail (ErrReadStripe 0 ErrStripRead).
Proof.
  intros rc data.
  split; [compute_done|]. split; [compute_done|].
  vm_compute. repeat split.
Qed.

(** *** The theorems at concrete inputs *)

Lemma raid5_parity_is_xor_witness :
  let rc := controller RAID5 ["d0"; "d1"; "d2"] 8 in
  let ord := fun _ : nat => ["d0"; "d1"; "d2"] in
  let data := [1; 2; 3; 4; 5; 6; 7; 8]%Z in
  let dataStrips := [[1; 2; 3; 4]; [5; 6; 7; 8]]%Z in
  splitDataForRAID5 rc data = Some dataStrips ∧
  calculateParity dataStrips = [4; 4; 4; 12]%Z ∧
  calculateParity dataStrips !! 3 = Some (xorAll [4; 8]%Z) ∧
  ∃ d', drivers (fst (writeRAID5Stripe rc ord 0 data "f")) !! "d0" = Some d' ∧
        blobs d' !! raid5ID "f" 0 ParityStrip "d0" = Some [4; 4; 4; 12]%Z.
Proof.
  intros rc ord data dataStrips.
  assert (Hsplit : splitDataForRAID5 rc data = Some dataStrips) by reflexivity.
  destruct (raid5_parity_is_xor rc ord 0 data "f" dataStrips Hsplit)
    as (Hlen & Hbyte & Hstrip & Hstored).
  split; [exact Hsplit|]. split; [reflexivity|].
  split; [apply (Hbyte 3); vm_compute; lia|].
  apply (Hstored _ (snd (writeRAID5Stripe rc ord 0 data "f")) "d0" healthy).
  - apply surjective_pairing.
  - vm_compute. discriminate.
  - vm_compute. discriminate.
  - reflexivity.
  - reflexivity.
  - reflexivity.
Defined.

Lemma raid1_write_succeeds_iff_witness :
  rangeOf (drivers oneAlive) ["d0"; "d1"] ∧
  snd (writeRAID1Stripe oneAlive ["d0"; "d1"] 0 [104; 105]%Z "f") = Done ().
Proof.
  assert (Hrange : rangeOf (drivers oneAlive) ["d0"; "d1"]) by compute_done.
  split; [exact Hrange|].
  apply (proj1 (raid1_write_succeeds_iff oneAlive ["d0"; "d1"] 0 [104; 105]%Z "f" Hrange)).
  exists "d1". split; [compute_done|].
  exists healthy. split; [reflexivity|]. by eexists.
Defined.

End RaidSpec.

(** ** Properties of the scheduler *)

Module SchedulerSpec.
Import FloatOrder Scheduler.

(** *** The insertion sort keeps the contract *)

Lemma insertBack_permutation less x sortedRev :
  insertBack less x sortedRev ≡ₚ x :: sortedRev.
Proof.
  induction sortedRev as [|y rest IH]; simpl; [done|].
  destruct (less x y); [|done]. rewrite IH. apply Permutation_swap.
Qed.

Lemma insertionSort_permutation less l : insertionSort less l ≡ₚ l.
Proof.
  unfold insertionSort. rewrite reverse_Permutation.
  enough (G : ∀ acc, foldl (fun sortedRev x => insertBack less x sortedRev) acc l
                     ≡ₚ l ++ acc) by (by rewrite G, app_nil_r).
  induction l as [|x l IH]; intros acc; simpl; [done|].
  rewrite IH, insertBack_permutation. by rewrite Permutation_middle.
Qed.

Lemma insertBack_sorted less (all : list string) x sortedRev :
  strictWeak less all → x ∈ all → (∀ y, y ∈ sortedRev → y ∈ all) →
  StronglySorted (fun a b => less a b = false) sortedRev →
  StronglySorted (fun a b => less a b = false) (insertBack less x sortedRev).
Proof.
  intros (Hirr & Htrans & Hneg) Hx.
  induction sortedRev as [|y rest IH]; intros Hall Hsorted; simpl.
  - repeat constructor.
  - apply StronglySorted_inv in Hsorted as [Hrest Hy].
    assert (y ∈ all) by (apply Hall; left).
    assert (∀ z, z ∈ rest → z ∈ all) by (intros; apply Hall; by right).
    destruct (less x y) eqn:Hxy.
    + constructor; [by apply IH|].
      rewrite insertBack_permutation. constructor; [|done].
      destruct (less y x) eqn:Hyx; [|done].
      rewrite <- (Hirr x Hx). symmetry. by apply (Htrans x y x).
    + constructor; [by constructor|]. constructor; [done|].
      rewrite Forall_forall in Hy |- *. intros z Hz.
      apply (Hneg x y z); auto.
Qed.

Lemma StronglySorted_lookup {A} (R : relation A) (l : list A) i j a b :
  StronglySorted R l → i < j → l !! i = Some a → l !! j = Some b → R a b.
Proof.
  intros Hs. revert i j. induction Hs as [|x l Hs IH Hx]; intros i j Hij Hi Hj.
  - done.
  - destruct j as [|j]; [lia|]. simpl in Hj. destruct i as [|i].
    + simpl in Hi. injection Hi as ->.
      rewrite Forall_forall in Hx. apply Hx. by eapply list_elem_of_lookup_2.
    + simpl in Hi. apply (IH i j); [lia|done..].
Qed.

Lemma insertionSort_ordered less l :
  strictWeak less l → ordered less (insertionSort less l).
Proof.
  intros Hsw. unfold insertionSort.
  set (f := fun sortedRev x => insertBack less x sortedRev).
  assert (G : ∀ todo acc,
             (∀ y, y ∈ todo → y ∈ l) → (∀ y, y ∈ acc → y ∈ l) →
             StronglySorted (fun a b => less a b = false) acc →
             StronglySorted (fun a b => less a b = false) (foldl f acc todo)).
  { induction todo as [|x todo IH]; intros acc Htodo Hacc Hs; simpl; [done|].
    apply IH.
    - intros; apply Htodo; by right.
    - intros y Hy. unfold f in Hy. rewrite insertBack_permutation in Hy.
      apply elem_of_cons in Hy as [->|Hy]; [apply Htodo; left|by apply Hacc].
    - apply (insertBack_sorted less l); [done|apply Htodo; left|done..]. }
  specialize (G l [] (fun _ H => H)).
  assert (Hs : StronglySorted (fun a b => less a b = false) (foldl f [] l)).
  { apply G; [intros y Hy; by apply elem_of_nil in Hy|constructor]. }
  clear G. generalize dependent (foldl f [] l). intros sortedRev Hs.
  intros i j a b Hij Hi Hj.
  assert (j < length sortedRev).
  { apply lookup_lt_Some in Hj. by rewrite length_reverse in Hj. }
  rewrite reverse_lookup in Hi by lia. rewrite reverse_lookup in Hj by lia.
  apply (StronglySorted_lookup _ sortedRev (length sortedRev - S j)
                               (length sortedRev - S i) b a Hs); [lia|done..].
Qed.

(** The insertion sort meets the contract of [sort.Slice]. *)
Lemma insertionSort_contract : sortContract insertionSort.
Proof. split; [apply insertionSort_permutation|apply insertionSort_ordered]. Qed.

(** *** Eligibility *)

Lemma min_is_min a b : min a b = Nat.min a b.
Proof. unfold min. destruct (Nat.ltb_spec a b); lia. Qed.

Lemma since_after now t (limit : Z) :
  (minDuration ≤ limit < maxDuration)%Z →
  (limit <? since now t)%Z = true ↔ (limit < now - t)%Z.
Proof.
  intros Hl. unfold since.
  destruct (Z.ltb_spec (now - t) minDuration);
    [|destruct (Z.ltb_spec maxDuration (now - t))];
    rewrite Z.ltb_lt; lia.
Qed.

Lemma five_minutes_fit : (minDuration ≤ 5 * minute < maxDuration)%Z.
Proof. by vm_compute. Qed.

Lemma getAvailableDrivers_elem rs now names exclude name :
  name ∈ getAvailableDrivers rs now names exclude ↔
  name ∈ names ∧
  ∃ metric, metrics rs !! name = Some metric ∧
            (0.8 <? SuccessRate metric)%float = true ∧
            (5 * minute < now - LastErrorTime metric)%Z ∧ name ∉ exclude.
Proof.
  unfold getAvailableDrivers. rewrite list_elem_of_filter.
  split.
  - intros [Hok Hin]. split; [done|].
    destruct (metrics rs !! name) as [metric|]; [|done].
    exists metric. unfold healthy in Hok.
    apply andb_true_iff in Hok as [Hex Hok]. apply andb_true_iff in Hok as [Hrate Ht].
    apply negb_true_iff, bool_decide_eq_false in Hex.
    apply (since_after _ _ _ five_minutes_fit) in Ht. done.
  - intros [Hin (metric & -> & Hrate & Ht & Hex)]. split; [|done].
    unfold healthy. rewrite Hrate.
    rewrite (proj2 (since_after _ _ _ five_minutes_fit)) by done.
    by rewrite bool_decide_eq_false_2.
Qed.

Section selected.
Variable sortSlice : sortFn.
Hypothesis contract : sortContract sortSlice.
Variable rs : RAIDScheduler.

Lemma swap_permutation l i j : swap l i j ≡ₚ l.
Proof.
  unfold swap. destruct (l !! i) as [a|] eqn:Hi; [|done].
  destruct (l !! j) as [b|] eqn:Hj; [|done].
  destruct (decide (i = j)) as [->|Hne].
  - rewrite list_insert_insert_eq. simplify_eq. by rewrite list_insert_id.
  - apply Permutation_inj. split; [by rewrite !length_insert|].
    exists (fun k => if decide (k = i) then j else if decide (k = j) then i else k).
    split.
    + intros x y. repeat case_decide; intros; simplify_eq; done.
    + intros k. pose proof (lookup_lt_Some _ _ _ Hi). pose proof (lookup_lt_Some _ _ _ Hj).
      repeat case_decide; simplify_eq.
      * rewrite list_lookup_insert_eq by (by rewrite length_insert). done.
      * rewrite list_lookup_insert_ne by done.
        rewrite list_lookup_insert_eq by done. done.
      * by rewrite !list_lookup_insert_ne by done.
Qed.

Lemma swap_length l i j : length (swap l i j) = length l.
Proof. by rewrite swap_permutation. Qed.

Lemma swap_lookup l i j k :
  i < length l → j < length l →
  swap l i j !! k = if decide (k = i) then l !! j
                    else if decide (k = j) then l !! i else l !! k.
Proof.
  intros Hi Hj. unfold swap.
  destruct (lookup_lt_is_Some_2 _ _ Hi) as [a Ha].
  destruct (lookup_lt_is_Some_2 _ _ Hj) as [b Hb]. rewrite Ha, Hb.
  repeat case_decide; simplify_eq.
  - by rewrite list_lookup_insert_eq by (by rewrite length_insert).
  - rewrite list_lookup_insert_ne by done. by rewrite list_lookup_insert_eq.
  - by rewrite !list_lookup_insert_ne by done.
Qed.

(** The [switch raidLevel] has five outcomes. *)
Lemma SelectDriversForStripe_cases now names raidLevel stripeIndex exclude :
  let avail := getAvailableDrivers rs now names exclude in
  let res := SelectDriversForStripe sortSlice rs now names raidLevel stripeIndex exclude in
  res = selectForRAID0 sortSlice rs avail ∨ res = selectForRAID1 sortSlice rs avail ∨
  res = selectForRAID5 sortSlice rs avail stripeIndex ∨ res = selectForRAID10 sortSlice rs avail ∨
  res = take (min 4 (length avail)) avail.
Proof.
  intros avail res. subst res. unfold SelectDriversForStripe. fold avail.
  destruct raidLevel as [|p|p]; [tauto| |tauto].
  do 4 (try destruct p as [p|p|]; try tauto).
Qed.

(** Whatever the level, the drivers returned are among the available. *)
Lemma selection_available now names raidLevel stripeIndex exclude name :
  name ∈ SelectDriversForStripe sortSlice rs now names raidLevel stripeIndex exclude →
  name ∈ getAvailableDrivers rs now names exclude.
Proof.
  set (avail := getAvailableDrivers rs now names exclude).
  assert (Hsorted : ∀ less n, name ∈ take n (sortSlice less avail) → name ∈ avail).
  { intros less n Hn. apply subseteq_take in Hn.
    by rewrite (proj1 contract) in Hn. }
  destruct (SelectDriversForStripe_cases now names raidLevel stripeIndex exclude)
    as [->|[->|[->|[->| ->]]]]; fold avail.
  - apply Hsorted.
  - apply Hsorted.
  - unfold selectForRAID5. destruct (_ <? 3); [done|].
    destruct (_ <? _); [rewrite swap_permutation|]; apply Hsorted.
  - unfold selectForRAID10. destruct (_ <? 4); [done|]. apply Hsorted.
  - apply subseteq_take.
Qed.

End selected.

(** C7. A driver is available exactly when its success rate is above 0.8,
    its last error lies more than 5 minutes back, and it is not excluded by
    the caller; [SelectDriversForStripe] returns available drivers only, at
    every level: never one whose success rate is at most 0.8, nor one with
    an error within the past 5 minutes, nor an excluded one. *)
Theorem selection_is_eligible (sortSlice : sortFn) (rs : RAIDScheduler) (now : Z)
    (names : list string) (raidLevel : Z) (stripeIndex : nat)
    (excludeDrivers : list string) :
  sortContract sortSlice →
  Raid.rangeOf (metrics rs) names →
  let eligible name :=
    ∃ metric, metrics rs !! name = Some metric ∧
              (0.8 <? SuccessRate metric)%float = true ∧
              (5 * minute < now - LastErrorTime metric)%Z ∧
              name ∉ excludeDrivers in
  (∀ name, name ∈ getAvailableDrivers rs now names excludeDrivers ↔ eligible name) ∧
  (∀ name,
     name ∈ SelectDriversForStripe sortSlice rs now names raidLevel stripeIndex excludeDrivers →
     eligible name ∧
     ∀ metric, metrics rs !! name = Some metric →
               (SuccessRate metric <=? 0.8)%float = false ∧
               ¬ (now - LastErrorTime metric ≤ 5 * minute)%Z ∧
               name ∉ excludeDrivers).
Proof.
  intros contract Hrange eligible.
  assert (Havail : ∀ name, name ∈ getAvailableDrivers rs now names excludeDrivers
                           ↔ eligible name).
  { intros name. rewrite getAvailableDrivers_elem. split; [by intros [_ ?]|].
    intros (metric & Hm & ?). split; [|by exists metric].
    apply (RaidSpec.rangeOf_elem _ _ _ Hrange). by eexists. }
  split; [done|]. intros name Hsel.
  apply (selection_available sortSlice contract), Havail in Hsel. split; [done|].
  destruct Hsel as (metric & Hm & Hrate & Ht & Hex).
  intros metric' Hm'. rewrite Hm in Hm'. injection Hm' as <-.
  split; [by apply ltb_not_leb|]. split; [lia|done].
Qed.

(** *** RAID 5: score order and the parity carrier *)

Lemma lessScore_strictWeak rs (l : list string) :
  Forall (fun d => is_nan (calculateScore rs d) = false) l →
  strictWeak (lessScore rs) l.
Proof.
  rewrite Forall_forall. intros Hnan. unfold lessScore. repeat split.
  - intros a _. apply ltb_irrefl.
  - intros a b c _ _ _ Hab Hbc. by apply (ltb_trans _ (calculateScore rs b)).
  - intros a b c Ha Hb Hc Hab Hbc.
    apply (ltb_negtrans _ (calculateScore rs b)); auto.
Qed.

(** The constants of the score and of the health test are positive numbers. *)
Lemma score_constants :
  ∀ c, c ∈ [1; 0.3; 0.4; 0.2; 0.1; 0.8; float64 tenGiB]%float →
       ∃ m e, Prim2SF c = S754_finite false m e.
Proof.
  intros c Hc. repeat (apply elem_of_cons in Hc as [->|Hc]);
    [vm_compute; eauto..|by apply elem_of_nil in Hc].
Qed.

Lemma float64_nonnegative n : (0 ≤ n)%Z → nonnegative (float64 n).
Proof.
  intros H. unfold float64. rewrite (proj2 (Z.ltb_ge n 0)) by done.
  apply of_uint63_nonnegative.
Qed.

(** The score of a driver whose success rate is above 0.8 and whose latency
    and load are not negative is a number. *)
Lemma calculateScore_not_nan rs driverName metric :
  metrics rs !! driverName = Some metric →
  (0 ≤ AvgLatency metric)%Z → (0 ≤ CurrentLoad metric)%Z →
  (0.8 <? SuccessRate metric)%float = true →
  is_nan (calculateScore rs driverName) = false.
Proof.
  intros Hm Hlat Hload Hrate. apply nonnegative_not_nan.
  unfold calculateScore. rewrite Hm.
  destruct (score_constants 1 ltac:(set_solver)) as (m1 & e1 & H1).
  destruct (score_constants 0.3 ltac:(set_solver)) as (m3 & e3 & H3).
  destruct (score_constants 0.4 ltac:(set_solver)) as (m4 & e4 & H4).
  destruct (score_constants 0.2 ltac:(set_solver)) as (m2 & e2 & H2).
  destruct (score_constants 0.1 ltac:(set_solver)) as (m0 & e0 & H0).
  destruct (score_constants (float64 tenGiB) ltac:(set_solver)) as (mg & eg & Hg).
  assert (Hone : nonnegative 1) by (unfold nonnegative; by rewrite H1).
  assert (Hzero : nonnegative 0) by (by vm_compute).
  assert (Hr : nonnegative (SuccessRate metric)).
  { destruct (score_constants 0.8 ltac:(set_solver)) as (m8 & e8 & H8).
    by apply (above_nonnegative _ _ _ _ H8). }
  assert (Hl : nonnegative (1 / (float64 (AvgLatency metric ÷ millisecond) + 1))).
  { apply (div_nonnegative_l _ _ _ _ H1), add_nonnegative; [|done].
    apply float64_nonnegative, Z.quot_pos; [done|by vm_compute]. }
  assert (Hd : nonnegative (1 / (float64 (CurrentLoad metric) + 1))).
  { apply (div_nonnegative_l _ _ _ _ H1), add_nonnegative; [|done].
    by apply float64_nonnegative. }
  assert (Hs3 : nonnegative
                  (0 + 1 / (float64 (AvgLatency metric ÷ millisecond) + 1) * 0.3
                   + SuccessRate metric * 0.4
                   + 1 / (float64 (CurrentLoad metric) + 1) * 0.2)).
  { repeat apply add_nonnegative; try done.
    - by apply (mul_nonnegative _ _ _ _ H3).
    - by apply (mul_nonnegative _ _ _ _ H4).
    - by apply (mul_nonnegative _ _ _ _ H2). }
  destruct (0 <? AvailableSpace metric)%Z eqn:Hspace; [|done].
  apply add_nonnegative; [done|].
  apply (mul_nonnegative _ _ _ _ H0), (div_nonnegative_r _ _ _ _ Hg).
  apply float64_nonnegative. apply Z.ltb_lt in Hspace.
  apply Z.min_glb; [lia|by vm_compute].
Qed.

(** Hence the scores of the available drivers are numbers whenever the
    table holds no negative latency or load. *)
Lemma available_scores_are_numbers rs now names excludeDrivers :
  (∀ name metric, metrics rs !! name = Some metric →
                  (0 ≤ AvgLatency metric)%Z ∧ (0 ≤ CurrentLoad metric)%Z) →
  Forall (fun d => is_nan (calculateScore rs d) = false)
         (getAvailableDrivers rs now names excludeDrivers).
Proof.
  intros Hpos. apply Forall_forall. intros d Hd.
  apply getAvailableDrivers_elem in Hd as (_ & metric & Hm & Hrate & _).
  destruct (Hpos d metric Hm). by apply (calculateScore_not_nan rs d metric).
Qed.

(** C8, as the code has it.  With fewer than 3 available drivers
    [SelectDriversForStripe] at level 5 returns them as they are.  With 3 or
    more it returns [n = min(5, available)] of them: the available drivers
    sorted by composite score, highest first (scores that are numbers, as
    they are when no latency or load is negative, are in descending order,
    [sort.Slice] keeping its contract), cut to the first [n], with the
    driver at position [stripeIndex mod n] of that order, the parity
    carrier, exchanged with the last one.  The carrier is thus at the last
    position of the result; its position is not returned. *)
Theorem raid5_selection (sortSlice : sortFn) (rs : RAIDScheduler) (now : Z)
    (names : list string) (stripeIndex : nat) (excludeDrivers : list string) :
  sortContract sortSlice →
  let avail := getAvailableDrivers rs now names excludeDrivers in
  let res := SelectDriversForStripe sortSlice rs now names 5 stripeIndex excludeDrivers in
  let sorted := sortDriversByScore sortSlice rs avail in
  let n := Nat.min 5 (length avail) in
  let p := stripeIndex mod n in
  (length avail < 3 → res = avail) ∧
  (3 ≤ length avail →
     length res = n ∧ 3 ≤ n ≤ 5 ∧ sorted ≡ₚ avail ∧
     (Forall (fun d => is_nan (calculateScore rs d) = false) avail →
      ∀ i j a b, i < j → sorted !! i = Some a → sorted !! j = Some b →
                 (calculateScore rs a <? calculateScore rs b)%float = false) ∧
     res !! (n - 1) = sorted !! p ∧
     res !! p = sorted !! (n - 1) ∧
     (∀ i, i < n → i ≠ p → i ≠ n - 1 → res !! i = sorted !! i)).
Proof.
  intros contract avail res sorted n p.
  assert (Hres : res = selectForRAID5 sortSlice rs avail stripeIndex) by done.
  rewrite Hres. unfold selectForRAID5. fold sorted. split.
  - intros Hlt. by rewrite (proj2 (Nat.ltb_lt _ _) Hlt).
  - intros Hge. rewrite (proj2 (Nat.ltb_ge _ _) Hge).
    assert (Hperm : sorted ≡ₚ avail) by apply (proj1 contract).
    assert (Hlen : length sorted = length avail) by (by rewrite Hperm).
    rewrite min_is_min, Hlen. fold n.
    assert (Hn : 3 ≤ n ≤ 5) by lia.
    assert (Htake : length (take n sorted) = n) by (rewrite length_take; lia).
    rewrite Htake. fold p.
    assert (Hp : p < n) by (apply Nat.mod_upper_bound; lia).
    split; [|split; [done|split; [done|split]]].
    + destruct (p <? n - 1); [rewrite swap_length|]; done.
    + intros Hnan i j a b Hij Hi Hj.
      apply (proj2 contract (lessScore rs) avail
               (lessScore_strictWeak rs avail Hnan) i j a b Hij Hi Hj).
    + destruct (Nat.ltb_spec p (n - 1)) as [Hlt|Hlast].
      * repeat split.
        -- rewrite swap_lookup by lia. rewrite decide_False by lia.
           rewrite decide_True by done. by rewrite lookup_take_lt.
        -- rewrite swap_lookup by lia. rewrite decide_True by done.
           by rewrite lookup_take_lt by lia.
        -- intros i Hi Hip Hin. rewrite swap_lookup by lia.
           rewrite !decide_False by done. by rewrite lookup_take_lt.
      * assert (p = n - 1) as Heq by lia. rewrite Heq.
        repeat split; try (by rewrite lookup_take_lt by lia).
        intros i Hi _ _. by rewrite lookup_take_lt.
Qed.

Lemma selection_is_eligible_witness :
  Raid.rangeOf (metrics mixedMetrics) fiveDrivers ∧
  SelectDriversForStripe insertionSort mixedMetrics noon fiveDrivers 0 0 ["d1"]
    = ["d0"; "d2"; "d3"] ∧
  ∃ metric, metrics mixedMetrics !! "d0" = Some metric ∧
            (0.8 <? SuccessRate metric)%float = true ∧
            (5 * minute < noon - LastErrorTime metric)%Z ∧
            "d0" ∉ ["d1"].
Proof.
  assert (Hrange : Raid.rangeOf (metrics mixedMetrics) fiveDrivers) by compute_done.
  split; [exact Hrange|]. split; [reflexivity|].
  destruct (selection_is_eligible insertionSort mixedMetrics noon fiveDrivers
              0 0 ["d1"] insertionSort_contract Hrange) as [_ Hsel].
  apply (Hsel "d0"). compute_done.
Defined.

Lemma raid5_selection_witness :
  let res := SelectDriversForStripe insertionSort mixedMetrics noon fiveDrivers 5 1 [] in
  let sorted := sortDriversByScore insertionSort mixedMetrics
                  (getAvailableDrivers mixedMetrics noon fiveDrivers []) in
  sorted = ["d0"; "d1"; "d2"; "d3"] ∧ res = ["d0"; "d3"; "d2"; "d1"] ∧
  res !! 3 = sorted !! 1 ∧
  (calculateScore mixedMetrics "d0" <? calculateScore mixedMetrics "d1")%float = false.
Proof.
  intros res sorted.
  destruct (raid5_selection insertionSort mixedMetrics noon fiveDrivers 1 []
              insertionSort_contract) as [_ Hmany].
  destruct Hmany as (_ & _ & _ & Hord & Hlast & _ & _); [vm_compute; lia|].
  split; [reflexivity|]. split; [reflexivity|]. split; [exact Hlast|].
  apply (Hord ltac:(compute_done) 0 1); [lia|reflexivity..].
Defined.

(** The claim as worded fails on the code.  With five drivers of equal
    metrics and stripe 3 the driver at position 3 of the score order, the
    parity carrier, is returned at position 4, and position 3 holds another
    driver.  With distinct scores the returned list is not in descending
    score order.  With two available drivers two are returned, not between
    3 and 5. *)
Lemma raid5_selection_moves_parity_carrier :
  let equal := SelectDriversForStripe insertionSort equalMetrics noon fiveDrivers 5 3 [] in
  let sorted := sortDriversByScore insertionSort equalMetrics
                  (getAvailableDrivers equalMetrics noon fiveDrivers []) in
  let mixed := SelectDriversForStripe insertionSort mixedMetrics noon fiveDrivers 5 1 [] in
  let two := SelectDriversForStripe insertionSort equalMetrics noon fiveDrivers 5 3
               ["d0"; "d1"; "d2"] in
  length equal = 5 ∧ sorted !! (3 mod 5) = Some "d3" ∧
  equal !! (3 mod 5) = Some "d4" ∧ equal !! 4 = Some "d3" ∧
  mixed = ["d0"; "d3"; "d2"; "d1"] ∧
  (calculateScore mixedMetrics "d3" <? calculateScore mixedMetrics "d1")%float = true ∧
  two = ["d3"; "d4"].
Proof. vm_compute. repeat split. Qed.

End SchedulerSpec.

(** ** Properties of the metadata catalog *)

Module MetadataSpec.
Import Metadata.

(** C9, as the code has it.  [GetFileMetadata] returns the cached record
    when the id is in the cache and leaves the manager as it is.  On a miss
    it reads the file of the id: when there is none it fails with the
    not-found error, when the read fails with a read error, when the content
    does not parse with a parse error, the cache unchanged each time; when
    the content decodes it puts the decoded record into the cache and returns
    it, whatever the record holds, so that the next call finds it there. *)
Theorem GetFileMetadata_cases (mm : MetadataManager) (dsk : gmap string diskFile)
    (fileID : string) :
  let res := GetFileMetadata mm dsk fileID in
  (∀ fm, metadata mm !! fileID = Some fm → res = (mm, Done fm)) ∧
  (metadata mm !! fileID = None →
   (dsk !! pathOf mm fileID = None → res = (mm, Fail (ErrNotExist fileID))) ∧
   (dsk !! pathOf mm fileID = Some Unreadable → res = (mm, Fail ErrRead)) ∧
   (dsk !! pathOf mm fileID = Some Garbled → res = (mm, Fail ErrParse)) ∧
   (∀ fm, dsk !! pathOf mm fileID = Some (Encoded fm) →
          snd res = Done fm ∧
          metadata (fst res) = <[fileID := fm]> (metadata mm) ∧
          basePath (fst res) = basePath mm ∧
          driverHealth (fst res) = driverHealth mm ∧
          ∀ dsk', GetFileMetadata (fst res) dsk' fileID = (fst res, Done fm))).
Proof.
  intros res. subst res. unfold GetFileMetadata. split.
  - by intros fm ->.
  - intros ->. split; [by intros ->|]. split; [by intros ->|]. split; [by intros ->|].
    intros fm ->. simpl. repeat split.
    intros dsk'. by rewrite lookup_insert_eq.
Qed.

(** The claim as worded fails on the code: a file that decodes to a record
    with a gap in its stripe indices is not rejected as corrupt; the record
    is returned and cached. *)
Lemma GetFileMetadata_does_not_validate :
  let dsk : gmap string diskFile := {[ "meta/f.json" := Encoded gappedRecord ]} in
  specInvariants gappedRecord = false ∧
  snd (GetFileMetadata emptyManager dsk "f") = Done gappedRecord ∧
  metadata (fst (GetFileMetadata emptyManager dsk "f")) !! "f" = Some gappedRecord.
Proof. vm_compute. repeat split. Qed.

End MetadataSpec.
